(** * split_multitexts_on_same_page.py: splitting a multi-text page file

    A shallow embedding of the script
    [data/0974IbnHajarHaytami/0974IbnHajarHaytami.TuhfatMuhtaj/split_multitexts_on_same_page.py]
    and the properties of its two functions, [clean] and [split_multitext].

    Python [str] values are lists of Unicode code points.  The regular
    expressions of the script are given in abstract syntax, each next to the
    pattern literal it stands for, and are run by a backtracking matcher
    with the priorities of Python's [re] module (greedy and lazy
    repetition, ordered alternation, capture groups, lookahead, [\A] and
    [\Z]).  Files are a finite map from paths to decoded text. *)

From Stdlib Require Import String Ascii NArith ZArith Lia.
From stdpp Require Import base option list gmap.

Local Open Scope nat_scope.

(** ** Text *)

Abbreviation char := N (only parsing).
Abbreviation str := (list N) (only parsing).

(** Reading a literal: the bytes of a Rocq string are decoded as UTF-8, and
    the escapes [\n], [\r] and [\\] are read as in a Python literal. *)
Fixpoint utf8_go (s : string) (need : nat) (acc : N) : str :=
  match s with
  | EmptyString => []
  | String a s' =>
      let b := N_of_ascii a in
      match need with
      | 0 =>
          if (b <? 128)%N then b :: utf8_go s' 0 0%N
          else if (b <? 224)%N then utf8_go s' 1 (b - 192)%N
          else if (b <? 240)%N then utf8_go s' 2 (b - 224)%N
          else utf8_go s' 3 (b - 240)%N
      | S n =>
          let acc' := (acc * 64 + (b - 128))%N in
          match n with
          | 0 => acc' :: utf8_go s' 0 0%N
          | _ => utf8_go s' n acc'
          end
      end
  end.

Fixpoint unescape (s : str) : str :=
  match s with
  | 92%N :: 110%N :: s' => 10%N :: unescape s'
  | 92%N :: 114%N :: s' => 13%N :: unescape s'
  | 92%N :: 92%N :: s' => 92%N :: unescape s'
  | c :: s' => c :: unescape s'
  | [] => []
  end.

Definition u (s : string) : str := unescape (utf8_go s 0 0%N).

Definition str_eqb (a b : str) : bool := bool_decide (a = b).

(** [s.startswith(p)] *)
Fixpoint startswith (p s : str) : bool :=
  match p, s with
  | [], _ => true
  | a :: p', b :: s' => N.eqb a b && startswith p' s'
  | _ :: _, [] => false
  end.

(** [s.find(p)]: index of the first occurrence. *)
Fixpoint str_find (p s : str) : option nat :=
  if startswith p s then Some 0
  else match s with
       | [] => None
       | _ :: s' => S <$> str_find p s'
       end.

(** [s.count(p)] for a non-empty [p]: occurrences counted from the left
    without overlap; [skip] characters are still covered by the occurrence
    counted last. *)
Fixpoint count_from (p s : str) (skip : nat) : nat :=
  match s with
  | [] => 0
  | _ :: s' =>
      match skip with
      | S n => count_from p s' n
      | 0 => if startswith p s then S (count_from p s' (length p - 1))
             else count_from p s' 0
      end
  end.

Definition str_count (p s : str) : nat := count_from p s 0.

(** ** Regular expressions *)

Inductive citem :=
  | CLit (c : char)
  | CRange (lo hi : char)
  | CWord
  | CDigit
  | CSpace.

Inductive regex :=
  | Eps
  | Chr (c : char)
  | Dot
  | Cls (neg : bool) (items : list citem)
  | Seq (r1 r2 : regex)
  | Alt (r1 r2 : regex)
  | Star (greedy : bool) (r : regex)
  | Grp (n : nat) (r : regex)
  | Ahead (r : regex)
  | Bos
  | Eos.

Definition Plus (greedy : bool) (r : regex) : regex := Seq r (Star greedy r).
Definition Opt (r : regex) : regex := Alt r Eps.

Fixpoint Lit (s : str) : regex :=
  match s with
  | [] => Eps
  | [c] => Chr c
  | c :: s' => Seq (Chr c) (Lit s')
  end.

Fixpoint Cat (rs : list regex) : regex :=
  match rs with
  | [] => Eps
  | [r] => r
  | r :: rs' => Seq r (Cat rs')
  end.

(** Number of capture groups, as [Pattern.groups]. *)
Fixpoint ngroups (r : regex) : nat :=
  match r with
  | Seq r1 r2 | Alt r1 r2 => max (ngroups r1) (ngroups r2)
  | Star _ r1 | Ahead r1 => ngroups r1
  | Grp n r1 => max n (ngroups r1)
  | _ => 0
  end.

(** A replacement template, as [re.sub] reads its [repl] argument. *)
Inductive titem :=
  | TLit (s : str)
  | TGroup (n : nat).

(** ** What the script takes from its environment

    The Unicode tables behind [\w], [\d], [\s] and [str.strip]; the
    compiler of [re] for patterns and templates that are only known at run
    time (a key of [texts_d], the file name); and [ar_cnt_file] of the
    [openiti] package, as a function of the file's text. *)
Record Env := {
  isspace : char -> bool;
  isalnum : char -> bool;
  isdecimal : char -> bool;
  re_compile : str -> option regex;
  re_template : str -> option (list titem);
  ar_cnt : str -> Z
}.

(** ** The matcher *)

Record mstate := MState {
  off : nat;                          (* characters consumed since the match began *)
  rest : str;                         (* text still ahead *)
  caps : list (nat * (nat * nat))     (* group, start and end offsets; newest first *)
}.

Definition orelse {A} (a b : option A) : option A :=
  match a with Some x => Some x | None => b end.

Section Matcher.
Variable E : Env.
Variable dotall : bool.

Definition isword (c : char) : bool := isalnum E c || N.eqb c 95.

Definition citem_match (it : citem) (c : char) : bool :=
  match it with
  | CLit x => N.eqb c x
  | CRange lo hi => N.leb lo c && N.leb c hi
  | CWord => isword c
  | CDigit => isdecimal E c
  | CSpace => isspace E c
  end.

Definition cls_match (neg : bool) (items : list citem) (c : char) : bool :=
  xorb neg (existsb (fun it => citem_match it c) items).

Definition dot_match (c : char) : bool := dotall || negb (N.eqb c 10).

Definition one (f : char -> bool) (st : mstate) (k : mstate -> option mstate)
  : option mstate :=
  match rest st with
  | c :: s' => if f c then k (MState (S (off st)) s' (caps st)) else None
  | [] => None
  end.

(** A repetition: [body] is tried again as long as it consumes text,
    before ([greedy]) or after the continuation [k].  The bound [n] is the
    length of the text ahead, which no sequence of consuming iterations
    exceeds. *)
Fixpoint star_loop (body : mstate -> (mstate -> option mstate) -> option mstate)
    (greedy : bool) (k : mstate -> option mstate) (n : nat) (st : mstate)
  : option mstate :=
  match n with
  | 0 => k st
  | S n' =>
      let again :=
        body st (fun st' => if off st <? off st'
                            then star_loop body greedy k n' st' else None) in
      if greedy then orelse again (k st) else orelse (k st) again
  end.

(** [m bos r st k]: match [r] from [st], then continue with [k]; the first
    success in priority order is the result.  [bos] says whether the match
    began at the start of the text. *)
Fixpoint m (bos : bool) (r : regex) (st : mstate) (k : mstate -> option mstate)
  {struct r} : option mstate :=
  match r with
  | Eps => k st
  | Chr c => one (N.eqb c) st k
  | Dot => one dot_match st k
  | Cls neg items => one (cls_match neg items) st k
  | Seq r1 r2 => m bos r1 st (fun st' => m bos r2 st' k)
  | Alt r1 r2 => orelse (m bos r1 st k) (m bos r2 st k)
  | Star greedy r1 => star_loop (m bos r1) greedy k (length (rest st)) st
  | Grp n r1 =>
      m bos r1 st
        (fun st' => k (MState (off st') (rest st') ((n, (off st, off st')) :: caps st')))
  | Ahead r1 =>
      match m bos r1 st Some with
      | Some st' => k (MState (off st) (rest st) (caps st'))
      | None => None
      end
  | Bos => if bos && (off st =? 0) then k st else None
  | Eos => match rest st with [] => k st | _ :: _ => None end
  end.

(** One attempt at the current position, as [sre_match] at top level:
    with [must_advance] an empty match is not a success. *)
Definition match_at (bos : bool) (r : regex) (must_advance : bool) (s : str)
  : option mstate :=
  m bos r (MState 0 s [])
    (fun st => if must_advance && (off st =? 0) then None else Some st).

(** A match: its text and the text of groups 1..n ([None]: the group did
    not take part). *)
Record hit := Hit_ { whole : str; groups : list (option str) }.

Fixpoint cap_lookup (n : nat) (cs : list (nat * (nat * nat))) : option (nat * nat) :=
  match cs with
  | [] => None
  | (i, span) :: cs' => if i =? n then Some span else cap_lookup n cs'
  end.

Definition group_text (s : str) (cs : list (nat * (nat * nat))) (n : nat)
  : option str :=
  match cap_lookup n cs with
  | Some (a, b) => Some (take (b - a) (drop a s))
  | None => None
  end.

Definition mk_hit (r : regex) (s : str) (st : mstate) : hit :=
  Hit_ (take (off st) s)
       (map (fun i => group_text s (caps st) (S i)) (seq 0 (ngroups r))).

Inductive token :=
  | Gap (c : char)
  | Hit (h : hit).

(** What the scanning loop of [findall], [sub] and [split] finds at one
    position (Python 3.7 and later): the matches that start there, and how
    many further characters the last of them covers ([None]: the character
    at this position is outside every match).  After an empty match, a
    second search at the same position must advance. *)
Definition at_pos (r : regex) (bos : bool) (s : str) : list hit * option nat :=
  match match_at bos r false s with
  | None => ([], None)
  | Some st =>
      match off st with
      | S n => ([mk_hit r s st], Some n)
      | 0 =>
          match match_at bos r true s with
          | Some st2 => ([mk_hit r s st; mk_hit r s st2], Some (off st2 - 1))
          | None => ([mk_hit r s st], None)
          end
      end
  end.

(** The scan from left to right; [skip] characters ahead are still
    covered by the last match.  The search is made once more at the end
    of the text. *)
Fixpoint scan (r : regex) (bos : bool) (s : str) (skip : nat) : list token :=
  match skip, s with
  | S n, _ :: s' => scan r false s' n
  | S n, [] => []
  | 0, [] => map Hit (at_pos r bos []).1
  | 0, c :: s' =>
      map Hit (at_pos r bos s).1 ++
      match (at_pos r bos s).2 with
      | None => Gap c :: scan r false s' 0
      | Some n => scan r false s' n
      end
  end.

Definition hits (ts : list token) : list hit :=
  flat_map (fun t => match t with Hit h => [h] | Gap _ => [] end) ts.

Definition finditer (r : regex) (s : str) : list hit := hits (scan r true s 0).

(** [re.findall]: the whole match, the single group, or a tuple of groups. *)
Inductive item :=
  | IStr (s : str)
  | ITuple (l : list str).

Definition hit_item (h : hit) : item :=
  match groups h with
  | [] => IStr (whole h)
  | [g] => IStr (default [] g)
  | gs => ITuple (map (default []) gs)
  end.

Definition re_findall (r : regex) (s : str) : list item :=
  map hit_item (finditer r s).

(** [re.sub] *)
Definition expand (t : list titem) (h : hit) : str :=
  flat_map (fun x => match x with
                     | TLit s => s
                     | TGroup 0 => whole h
                     | TGroup (S i) => default [] (mjoin (groups h !! i))
                     end) t.

Definition re_sub (r : regex) (t : list titem) (s : str) : str :=
  flat_map (fun x => match x with Gap c => [c] | Hit h => expand t h end)
           (scan r true s 0).

(** [re.split]: the pieces between matches, with the groups of each match
    in between. *)
Fixpoint pieces (ts : list token) : list (option str) :=
  match ts with
  | [] => [Some []]
  | Gap c :: ts' =>
      match pieces ts' with
      | Some seg :: more => Some (c :: seg) :: more
      | other => other
      end
  | Hit h :: ts' => Some [] :: groups h ++ pieces ts'
  end.

Definition re_split (r : regex) (s : str) : list (option str) :=
  pieces (scan r true s 0).
End Matcher.

(** ** The patterns of the script *)

Definition ch (s : string) : char := hd 0%N (u s).
Definition dquote : char := 34%N.
Definition crlf : regex := Cls false [CLit (ch "\r"); CLit (ch "\n")].
Definition sentinel : str := u "\nNO_PAGE_NUMBER\n".
Definition header_end : str := u "#META#Header#End#".

(** ["#META#Header#End#"] *)
Definition rx_header : regex := Lit header_end.

(** [" *ms\d+ *"] *)
Definition rx_ms : regex :=
  Cat [Star true (Chr (ch " ")); Lit (u "ms"); Plus true (Cls false [CDigit]);
       Star true (Chr (ch " "))].

(** The page pattern of line 66: one group around
    [[\r\n]* PageV [^P]+ P [\w]+ [\r\n]*] (spaced out here, not in the script). *)
Definition rx_page : regex :=
  Grp 1 (Cat [Star true crlf; Lit (u "PageV"); Plus true (Cls true [CLit (ch "P")]);
              Chr (ch "P"); Plus true (Cls false [CWord]); Star true crlf]).

(** The tag pattern: [<], then one or more of [/], [a-z], [A-Z], [=], [\-],
    [_], the double quote, the single quote and the space, then [>]. *)
Definition rx_tag : regex :=
  Cat [Chr (ch "<");
       Plus true (Cls false [CLit (ch "/"); CRange (ch "a") (ch "z");
                             CRange (ch "A") (ch "Z"); CLit (ch "=");
                             CLit (ch "-"); CLit (ch "_"); CLit dquote;
                             CLit (ch "'"); CLit (ch " ")]);
       Chr (ch ">")].

(** ["(PageV[^P]+P\w+)[\r\n]*NO_PAGE_NUMBER"] *)
Definition rx_nopage : regex :=
  Cat [Grp 1 (Cat [Lit (u "PageV"); Plus true (Cls true [CLit (ch "P")]);
                   Chr (ch "P"); Plus true (Cls false [CWord])]);
       Star true crlf; Lit (u "NO_PAGE_NUMBER")].

(** [r"[\r\n]+#\s+[\r\n]+"] *)
Definition rx_emptypar : regex :=
  Cat [Plus true crlf; Chr (ch "#"); Plus true (Cls false [CSpace]);
       Plus true crlf].

(** ["# Page"] *)
Definition rx_hashpage : regex := Lit (u "# Page").

(** ["### \|.+[\r\n]+[# .]+[\r\n]+Page.+"] *)
Definition rx_emptysharh : regex :=
  Cat [Lit (u "### |"); Plus true Dot; Plus true crlf;
       Plus true (Cls false [CLit (ch "#"); CLit (ch " "); CLit (ch ".")]);
       Plus true crlf; Lit (u "Page"); Plus true Dot].

(** [r"# ([([](?:باب|فرع|فصل)[^\)\]]*[\)\]])\s*#?"] *)
Definition rx_subhead : regex :=
  Cat [Lit (u "# ");
       Grp 1 (Cat [Cls false [CLit (ch "("); CLit (ch "[")];
                   Alt (Lit (u "باب")) (Alt (Lit (u "فرع")) (Lit (u "فصل")));
                   Star true (Cls true [CLit (ch ")"); CLit (ch "]")]);
                   Cls false [CLit (ch ")"); CLit (ch "]")]]);
       Star true (Cls false [CSpace]); Opt (Chr (ch "#"))].

(** The commentary-start tag, ["### | [حاشية"]. *)
Definition hashiya_tag : str := u "### | [حاشية".

(** [r"### \| \[حاشية.+"] *)
Definition rx_hashiya : regex := Cat [Lit hashiya_tag; Plus true Dot].

(** [r"[/\\]"] *)
Definition rx_sep : regex := Cls false [CLit (ch "/"); CLit (ch "\\")].

(** The keys of [texts_d] in [__main__], and what they compile to. *)
Definition key_matn : str := u "\\A.*?(?=### \\| \\[حاشية)".
Definition key_shirwani : str :=
  u "(### \\| \\[حاشية +الشرواني.+?)(?=### \\| \\[حاشية|\\Z)".
Definition key_ibnqasim : str :=
  u "(### \\| \\[حاشية +ابن +قاسم.+?)(?=### \\| \\[حاشية|\\Z)".

Definition rx_matn : regex := Cat [Bos; Star false Dot; Ahead (Lit hashiya_tag)].

Definition rx_shirwani : regex :=
  Cat [Grp 1 (Cat [Lit hashiya_tag; Plus true (Chr (ch " ")); Lit (u "الشرواني");
                   Plus false Dot]);
       Ahead (Alt (Lit hashiya_tag) Eos)].

Definition rx_ibnqasim : regex :=
  Cat [Grp 1 (Cat [Lit hashiya_tag; Plus true (Chr (ch " ")); Lit (u "ابن");
                   Plus true (Chr (ch " ")); Lit (u "قاسم"); Plus false Dot]);
       Ahead (Alt (Lit hashiya_tag) Eos)].

(** ** [clean] *)

Section Clean.
Variable E : Env.

Fixpoint lstrip (s : str) : str :=
  match s with
  | c :: s' => if isspace E c then lstrip s' else s
  | [] => []
  end.

(** [text.strip()] *)
Definition strip (s : str) : str := rev (lstrip (rev (lstrip s))).

Definition remove_html_tags (t : str) : str := re_sub E false rx_tag [] t.
Definition remove_no_page_number (t : str) : str :=
  re_sub E false rx_nopage [TGroup 1] t.
Definition remove_empty_paragraphs (t : str) : str :=
  re_sub E false rx_emptypar [TLit (u "\n")] t.
Definition remove_hash_before_page (t : str) : str :=
  re_sub E false rx_hashpage [TLit (u "Page")] t.
Definition remove_empty_sharh_pages (t : str) : str :=
  re_sub E false rx_emptysharh [] t.
Definition tag_subheadings (t : str) : str :=
  re_sub E false rx_subhead [TLit (u "### | "); TGroup 1; TLit (u "\n# ")] t.
Definition remove_hashiya_tags (t : str) : str := re_sub E false rx_hashiya [] t.

Definition clean (text : str) : str :=
  let text := remove_html_tags text in
  let text := remove_no_page_number text in
  let text := remove_empty_paragraphs text in
  let text := remove_hash_before_page text in
  let text := remove_empty_sharh_pages text in
  let text := tag_subheadings text in
  let text := remove_hashiya_tags text in
  strip text.
End Clean.

(** ** An environment to run examples in

    The tables are those of Unicode 14 on Basic Latin and the Arabic block
    (all of them for white space); the compiler knows the three keys of
    [__main__] and reads a name made of letters, digits, [-] and [_] as
    itself and [.] as the wildcard; a template without backslash stands
    for itself. *)
Definition in_range (lo hi c : N) : bool := N.leb lo c && N.leb c hi.

Definition uc_isspace (c : char) : bool :=
  (in_range 9 13 c || in_range 28 32 c || N.eqb c 133 || N.eqb c 160
   || N.eqb c 5760 || in_range 8192 8202 c || in_range 8232 8233 c
   || N.eqb c 8239 || N.eqb c 8287 || N.eqb c 12288)%N.

Definition uc_isdecimal (c : char) : bool :=
  (in_range 48 57 c || in_range 0x660 0x669 c || in_range 0x6f0 0x6f9 c)%N.

Definition uc_isalnum (c : char) : bool :=
  (in_range 48 57 c || in_range 65 90 c || in_range 97 122 c
   || in_range 0x620 0x64a c || in_range 0x660 0x669 c
   || in_range 0x66e 0x66f c || in_range 0x671 0x6d3 c || N.eqb c 0x6d5
   || in_range 0x6e5 0x6e6 c || in_range 0x6ee 0x6fc c || N.eqb c 0x6ff)%N.

Definition name_char (c : char) : bool :=
  (in_range 48 57 c || in_range 65 90 c || in_range 97 122 c
   || N.eqb c 45 || N.eqb c 95 || N.eqb c 46)%N.

Definition compile_name (s : str) : option regex :=
  if forallb name_char s
  then Some (Cat (map (fun c => if N.eqb c 46 then Dot else Chr c) s))
  else None.

Definition compile_known (s : str) : option regex :=
  if str_eqb s key_matn then Some rx_matn
  else if str_eqb s key_shirwani then Some rx_shirwani
  else if str_eqb s key_ibnqasim then Some rx_ibnqasim
  else compile_name s.

Definition template_plain (s : str) : option (list titem) :=
  if existsb (N.eqb 92) s then None else Some [TLit s].

Definition count_arabic (s : str) : Z :=
  Z.of_nat (length (filter (fun c => Is_true (in_range 0x621 0x64a c)) s)).

Definition py : Env := {|
  isspace := uc_isspace;
  isalnum := uc_isalnum;
  isdecimal := uc_isdecimal;
  re_compile := compile_known;
  re_template := template_plain;
  ar_cnt := count_arabic
|}.

(** ** Files, output and exceptions *)

Inductive exn :=
  | FileNotFoundError
  | PermissionError
  | ValueError
  | TypeError
  | AttributeError
  | ReError.

(** A line of standard output: the message and the number printed after it. *)
Definition line : Type := string * option Z.

Record world := World {
  files : gmap str str;       (* path to text, as [file.read()] returns it *)
  writable : str -> bool;     (* whether [open(path, mode="w")] succeeds *)
  stdout : list line
}.

Inductive result (A : Type) :=
  | Ok (a : A) (w : world)
  | Raise (e : exn) (w : world).
Arguments Ok {A} a w.
Arguments Raise {A} e w.

Definition M (A : Type) : Type := world -> result A.

Definition ret {A} (a : A) : M A := fun w => Ok a w.
Definition raise {A} (e : exn) : M A := fun w => Raise e w.
Definition bind {A B} (c : M A) (f : A -> M B) : M B :=
  fun w => match c w with
           | Ok a w' => f a w'
           | Raise e w' => Raise e w'
           end.

Notation "'let*' x ':=' c 'in' k" := (bind c (fun x => k))
  (at level 10, x name, c at level 100, k at level 200).
Notation "'do' c 'then' k" := (bind c (fun _ => k))
  (at level 10, c at level 100, k at level 200).

(** [with open(p, mode="r") as file: file.read()] *)
Definition read_file (p : str) : M str :=
  fun w => match files w !! p with
           | Some t => Ok t w
           | None => Raise FileNotFoundError w
           end.

(** [open(p, mode="w")]: the file is created or emptied. *)
Definition open_w (p : str) : M unit :=
  fun w => if writable w p
           then Ok tt (World (<[p := []]> (files w)) (writable w) (stdout w))
           else Raise PermissionError w.

(** [file.write(t)] on the file just opened, and closing it. *)
Definition write (p t : str) : M unit :=
  fun w => Ok tt (World (<[p := t]> (files w)) (writable w) (stdout w)).

Definition print (l : line) : M unit :=
  fun w => Ok tt (World (files w) (writable w) (stdout w ++ [l])).

Fixpoint for_each {A} (l : list A) (f : A -> M unit) : M unit :=
  match l with
  | [] => ret tt
  | x :: l' => do f x then for_each l' f
  end.

(** [os.path.join(a, b)] of [posixpath]. *)
Definition endswith_sep (a : str) : bool :=
  match last a with Some c => N.eqb c (ch "/") | None => false end.

Definition path_join (a b : str) : str :=
  if startswith (u "/") b then b
  else if bool_decide (a = []) || endswith_sep a then a ++ b
  else a ++ u "/" ++ b.

(** ** [split_multitext] *)

(** A value of [texts_d]: the file name and the fragments collected so far.
    Each descriptor owns its list, as in [__main__]. *)
Record descr := Descr { fn : str; text : list str }.

(** [texts_d], in the order of iteration of the dictionary. *)
Abbreviation texts := (list (str * descr)) (only parsing).

Section Split.
Variable E : Env.

(** Line 60: [header, text = re.split("#META#Header#End#", text)]. *)
Definition split_header (t : str) : exn + (str * str) :=
  match re_split E false rx_header t with
  | [Some header; Some body] => inr (header, body)
  | [_; _] => inl TypeError
  | _ => inl ValueError
  end.

(** Lines 75 to 78: the first item of [re.findall], or the empty string
    when indexing or compiling fails. *)
Definition extract (k page : str) : item :=
  match re_compile E k with
  | None => IStr []
  | Some r =>
      match re_findall E true r page with
      | x :: _ => x
      | [] => IStr []
      end
  end.

(** [t+page_no]: defined on two strings. *)
Definition add (t : item) (page_no : option str) : exn + str :=
  match t, page_no with
  | IStr s, Some p => inr (s ++ p)
  | _, _ => inl TypeError
  end.

(** Lines 74 to 79, for one page. *)
Fixpoint append_page (page : str) (page_no : option str) (td : texts)
  : exn + texts :=
  match td with
  | [] => inr []
  | (k, d) :: td' =>
      match add (extract k page) page_no with
      | inl e => inl e
      | inr frag =>
          match append_page page page_no td' with
          | inl e => inl e
          | inr td'' => inr ((k, Descr (fn d) (text d ++ [frag])) :: td'')
          end
      end
  end.

(** Lines 70 to 72. *)
Definition page_number (pages : list (option str)) (i : nat) : option str :=
  match pages !! (S i) with
  | Some p => p
  | None => Some sentinel
  end.

(** Lines 67 to 79: [todo] are the pages from index [i] on. *)
Fixpoint split_loop (pages : list (option str)) (i : nat)
    (todo : list (option str)) (td : texts) : exn + texts :=
  match todo with
  | [] => inr td
  | None :: _ => inl AttributeError
  | Some page :: todo' =>
      if startswith (u "Page") page then split_loop pages (S i) todo' td
      else
        match append_page page (page_number pages i) td with
        | inl e => inl e
        | inr td' => split_loop pages (S i) todo' td'
        end
  end.

(** Lines 64 and 66. *)
Definition remove_milestones (t : str) : str :=
  re_sub E false rx_ms [TLit (u " ")] t.

Definition split_into_pages (body : str) : list (option str) :=
  re_split E false rx_page (remove_milestones body).

(** Lines 64 to 79. *)
Definition split_pages (body : str) (td : texts) : exn + texts :=
  let pages := split_into_pages body in
  split_loop pages 0 pages td.

Definition lift {A} (x : exn + A) : M A :=
  match x with
  | inl e => raise e
  | inr a => ret a
  end.

(** Line 82: [re.split(r"[/\\]", fp)[-1]]. *)
Definition basename (fp : str) : str :=
  match last (re_split E false rx_sep fp) with
  | Some (Some x) => x
  | _ => []
  end.

(** Line 92: [re.sub(uri, d["fn"], yml_str)]. *)
Definition rename_in_yml (uri name yml_str : str) : exn + str :=
  match re_compile E uri, re_template E name with
  | Some r, Some t => inr (re_sub E false r t yml_str)
  | _, _ => inl ReError
  end.

(** Lines 86 to 92, for one descriptor. *)
Definition write_descr (outfolder header uri yml_str : str) (d : descr) : M unit :=
  let outfp := path_join outfolder (fn d) in
  do open_w outfp then
  do write outfp (header ++ concat (text d)) then
  do open_w (outfp ++ u ".yml") then
  let* y := lift (rename_in_yml uri (fn d) yml_str) in
  write (outfp ++ u ".yml") y.

(** [ar_cnt_file(p, incl_editor_sections=True)] *)
Definition ar_cnt_file (p : str) : M Z :=
  let* t := read_file p in ret (ar_cnt E t).

Fixpoint count_all (outfolder : str) (ds : list descr) : M (list Z) :=
  match ds with
  | [] => ret []
  | d :: ds' =>
      let* n := ar_cnt_file (path_join outfolder (fn d)) in
      let* ns := count_all outfolder ds' in
      ret (n :: ns)
  end.

(** Lines 94 to 98. *)
Definition report (fp outfolder : str) (ds : list descr) : M unit :=
  let* n := ar_cnt_file fp in
  do print ("original Arabic character count:"%string, Some n) then
  let* ns := count_all outfolder ds in
  do print ("sum of the Arabic character count in export files:"%string,
            Some (foldr Z.add 0%Z ns)) then
  print ("NB: if Arabic character count does not agree, something went wrong!"%string,
         None).

(** Lines 101 to 107, for one descriptor. *)
Definition clean_descr (outfolder : str) (f : str -> str) (d : descr) : M unit :=
  let fp := path_join outfolder (fn d) in
  let* t := read_file fp in
  do open_w fp then
  write fp (f t).

(** Lines 58 to 98: everything before the cleaning.  The dictionary after
    the run is part of the result; when the run raises, what had been
    appended by then is not followed. *)
Definition split_and_write (fp outfolder : str) (texts_d : texts) : M texts :=
  let* t := read_file fp in
  let* hb := lift (split_header t) in
  let header := hb.1 ++ u "#META#Header#End#\n\n" in
  let* td := lift (split_pages hb.2 texts_d) in
  let uri := basename fp in
  let* yml_str := read_file (fp ++ u ".yml") in
  do for_each (map snd td) (write_descr outfolder header uri yml_str) then
  do report fp outfolder (map snd td) then
  ret td.

(** The function: lines 58 to 98, then the cleaning of lines 100 to 107. *)
Definition split_multitext (fp outfolder : str) (texts_d : texts)
    (clean_text : option (str -> str)) : M texts :=
  let* td := split_and_write fp outfolder texts_d in
  do match clean_text with
     | Some f => for_each (map snd td) (clean_descr outfolder f)
     | None => ret tt
     end then
  ret td.
End Split.

(** ** Vocabulary of the properties *)

(** [st'] is reached from [st] by consuming text. *)
Definition extends (st st' : mstate) : Prop :=
  ∃ consumed, rest st = consumed ++ rest st' ∧ off st' = off st + length consumed.

(** No [\A] in the pattern. *)
Fixpoint nobos (r : regex) : bool :=
  match r with
  | Seq r1 r2 | Alt r1 r2 => nobos r1 && nobos r2
  | Star _ r1 | Grp _ r1 | Ahead r1 => nobos r1
  | Bos => false
  | _ => true
  end.

(** The text a list of tokens stands for. *)
Definition token_text (ts : list token) : str :=
  flat_map (fun t => match t with Gap c => [c] | Hit h => whole h end) ts.

(** The page-marker tokens of a body, as line 66 finds them. *)
Definition page_markers (E : Env) (body : str) : list hit :=
  finditer E false rx_page (remove_milestones E body).

(** The segments the loop of line 67 takes for content. *)
Definition is_content (pages : list (option str)) (j : nat) : bool :=
  match pages !! j with
  | Some (Some p) => negb (startswith (u "Page") p)
  | _ => false
  end.

Definition content_indices (pages : list (option str)) : list nat :=
  filter (fun j => Is_true (is_content pages j)) (seq 0 (length pages)).

(** The rules of [clean], in order. *)
Definition clean_rules : list regex :=
  [rx_tag; rx_nopage; rx_emptypar; rx_hashpage; rx_emptysharh; rx_subhead;
   rx_hashiya].

(** The paths [split_multitext] writes to, given the file names. *)
Definition name_paths (outfolder : str) (names : list str) : list str :=
  flat_map (fun n => [path_join outfolder n; path_join outfolder n ++ u ".yml"])
           names.

Definition output_paths (outfolder : str) (td : texts) : list str :=
  name_paths outfolder (map (fun kd => fn kd.2) td).

(** The page count invariant as the specification words it. *)
Definition page_count_invariant (E : Env) : Prop :=
  ∀ (body : str) (td td' : texts),
    Forall (fun kd => text kd.2 = []) td →
    split_pages E body td = inr td' →
    Forall (fun kd => length (text kd.2) = length (page_markers E body)) td'.

(** The fragment line 79 appends for the key [k] on [page]. *)
Definition fragment (E : Env) (k page : str) (page_no : option str) : exn + str :=
  add (extract E k page) page_no.

(** The pattern [k] compiles and finds nothing on [page]. *)
Definition no_match (E : Env) (k page : str) : Prop :=
  ∃ r, re_compile E k = Some r ∧ re_findall E true r page = [].

(** [kd'] is [kd] after the loop appended one fragment for each of the
    segments [js] of [pages], in order. *)
Definition collected (E : Env) (pages : list (option str)) (js : list nat)
    (kd kd' : str * descr) : Prop :=
  kd'.1 = kd.1 ∧ fn kd'.2 = fn kd.2 ∧
  ∃ fs, text kd'.2 = text kd.2 ++ fs ∧
        Forall2 (fun j f => ∃ page : str, pages !! j = Some (Some page) ∧
                                    fragment E kd.1 page (page_number pages j) = inr f)
                js fs.

(** The scenario of the specification: a header, three page markers, the
    matn after the first and a commentary after the second; the
    descriptors are the first two of [__main__]. *)
Definition scenario_doc : str :=
  u "#META#Header#End#\n\nPageV01P001\nمتن نص\nPageV01P002\n### | [حاشية الشرواني] تعليق\nPageV01P003".

Definition scenario_texts : texts :=
  [(key_matn, Descr (u "BK1") []); (key_shirwani, Descr (u "BK2") [])].

Definition scenario_world : world :=
  World (<[u "src" := scenario_doc]> {[ u "src.yml" := u "uri: src" ]})
        (fun _ => true) [].

(** [s.replace(old, new)] for a non-empty [old]: what the specification
    asks of the sidecar. *)
Fixpoint replace_from (old new s : str) (skip : nat) : str :=
  match s with
  | [] => []
  | c :: s' =>
      match skip with
      | S n => replace_from old new s' n
      | 0 => if startswith old s
             then new ++ replace_from old new s' (length old - 1)
             else c :: replace_from old new s' 0
      end
  end.

Definition str_replace (old new s : str) : str := replace_from old new s 0.

(** A sidecar that names the file once and, once, a name that differs from
    it where the file name has its dot. *)
Definition sidecar_doc : str := u "#META#Header#End#text".
Definition sidecar_yml : str :=
  u "#URI#: 0974Ibn.Tuhfa-ara1\n#NOTE#: was 0974Ibn_Tuhfa-ara1".

Definition sidecar_world : world :=
  World (<[u "in/0974Ibn.Tuhfa-ara1" := sidecar_doc]>
           {[ u "in/0974Ibn.Tuhfa-ara1.yml" := sidecar_yml ]})
        (fun _ => true) [].

Definition sidecar_texts : texts :=
  [(key_matn, Descr (u "0974Ibn.TuhfaBK1-ara1") [])].

(** C9 as the specification words it: the first tag goes, with all that
    follows it in the text. *)
Definition discards_to_end_of_text (E : Env) : Prop :=
  ∀ p rest : str,
    str_find hashiya_tag (p ++ hashiya_tag ++ rest) = Some (length p) →
    remove_hashiya_tags E (p ++ hashiya_tag ++ rest) = p.


(** The body of [scenario_doc], and the environment of the examples with
    any compiler of patterns. *)
Definition scenario_body : str :=
  u "\n\nPageV01P001\nمتن نص\nPageV01P002\n### | [حاشية الشرواني] تعليق\nPageV01P003".

Definition py_with (compile : str -> option regex) : Env := {|
  isspace := uc_isspace;
  isalnum := uc_isalnum;
  isdecimal := uc_isdecimal;
  re_compile := compile;
  re_template := template_plain;
  ar_cnt := count_arabic
|}.


(** A text without [<], [#] and [P], the characters one of which every
    rule of [clean] needs. *)
Definition trigger_free (x : str) : Prop :=
  Forall (fun c => c ≠ ch "<" ∧ c ≠ ch "#" ∧ c ≠ ch "P") x.


(** The separators of line 82. *)
Definition is_sep (c : char) : bool := N.eqb c (ch "/") || N.eqb c (ch "\\").


(** ** The matcher consumes text *)

Section MatcherFacts.
Variable E : Env.
Variable dotall : bool.

Lemma extends_refl st : extends st st.
Proof. exists []. simpl. split; [done | lia]. Qed.

Lemma extends_trans a b c : extends a b → extends b c → extends a c.
Proof.
  intros (x & Hx & Ox) (y & Hy & Oy). exists (x ++ y).
  rewrite Hx, Hy, Oy, Ox, length_app, <- app_assoc. split; [done | lia].
Qed.

Lemma extends_caps st cs : extends st (MState (off st) (rest st) cs).
Proof. exists []. simpl. split; [done | lia]. Qed.

Lemma one_extends f st k res :
  one f st k = Some res → ∃ st', extends st st' ∧ k st' = Some res.
Proof.
  unfold one. destruct (rest st) as [|c s'] eqn:Hr; [done |].
  destruct (f c); [| done]. intros Hk. eexists. split; [| exact Hk].
  exists [c]. simpl. rewrite Hr. split; [done | lia].
Qed.

Lemma star_loop_extends body greedy k :
  (∀ st k' res, body st k' = Some res → ∃ st', extends st st' ∧ k' st' = Some res) →
  ∀ n st res, star_loop body greedy k n st = Some res →
              ∃ st', extends st st' ∧ k st' = Some res.
Proof.
  intros Hbody. induction n as [|n IH]; intros st res; simpl.
  - intros Hk. exists st. split; [apply extends_refl | done].
  - assert (Hagain : ∀ res',
      body st (fun st' => if off st <? off st'
                          then star_loop body greedy k n st' else None) = Some res' →
      ∃ st', extends st st' ∧ k st' = Some res').
    { intros res' H. apply Hbody in H as (st1 & He1 & H).
      destruct (off st <? off st1); [| done].
      apply IH in H as (st2 & He2 & H). exists st2.
      split; [by eapply extends_trans | done]. }
    destruct greedy; unfold orelse.
    + destruct (body st _) as [x|] eqn:Hb.
      * intros [= <-]. by apply Hagain.
      * intros Hk. exists st. split; [apply extends_refl | done].
    + destruct (k st) as [x|] eqn:Hk.
      * intros [= <-]. exists st. split; [apply extends_refl | done].
      * apply Hagain.
Qed.

Lemma m_extends bos r :
  ∀ st k res, m E dotall bos r st k = Some res →
              ∃ st', extends st st' ∧ k st' = Some res.
Proof.
  induction r as [|c| |neg items|r1 IH1 r2 IH2|r1 IH1 r2 IH2|g r1 IH1
                 |n r1 IH1|r1 IH1| |]; intros st k res; simpl.
  - intros Hk. exists st. split; [apply extends_refl | done].
  - apply one_extends.
  - apply one_extends.
  - apply one_extends.
  - intros H. apply IH1 in H as (st1 & He1 & H).
    apply IH2 in H as (st2 & He2 & H). exists st2.
    split; [by eapply extends_trans | done].
  - unfold orelse. destruct (m E dotall bos r1 st k) eqn:H1.
    + intros [= <-]. by apply IH1.
    + apply IH2.
  - apply star_loop_extends. exact IH1.
  - intros H. apply IH1 in H as (st1 & He1 & H). eexists. split; [| exact H].
    eapply extends_trans; [exact He1 |]. apply extends_caps.
  - destruct (m E dotall bos r1 st Some) as [st1|]; [| done].
    intros H. eexists. split; [| exact H]. apply extends_caps.
  - destruct (bos && (off st =? 0)); [| done].
    intros Hk. exists st. split; [apply extends_refl | done].
  - destruct (rest st); [| done].
    intros Hk. exists st. split; [apply extends_refl | done].
Qed.
End MatcherFacts.

(** ** Continuations, [\A] and literal patterns *)

Section PatternFacts.
Variable E : Env.
Variable dotall : bool.

Lemma one_ext f st k k' : (∀ x, k x = k' x) → one f st k = one f st k'.
Proof.
  intros Hk. unfold one. destruct (rest st) as [|c s']; [done |].
  destruct (f c); [apply Hk | done].
Qed.

Lemma star_loop_ext body body' greedy k k' :
  (∀ st k1 k2, (∀ x, k1 x = k2 x) → body st k1 = body' st k2) →
  (∀ x, k x = k' x) →
  ∀ n st, star_loop body greedy k n st = star_loop body' greedy k' n st.
Proof.
  intros Hb Hk. induction n as [|n IH]; intros st; simpl; [apply Hk |].
  rewrite (Hk st).
  rewrite (Hb st _ (fun st' => if off st <? off st'
                               then star_loop body' greedy k' n st' else None)).
  - done.
  - intros x. destruct (off st <? off x); [apply IH | done].
Qed.

(** The matcher depends on its continuation pointwise, and on [bos] only
    through [\A]. *)
Lemma m_ext r :
  ∀ b b' st k k', (b = b' ∨ nobos r = true) → (∀ x, k x = k' x) →
                  m E dotall b r st k = m E dotall b' r st k'.
Proof.
  induction r as [|c| |neg items|r1 IH1 r2 IH2|r1 IH1 r2 IH2|g r1 IH1
                 |n r1 IH1|r1 IH1| |]; intros b b' st k k' Hb Hk; simpl.
  - apply Hk.
  - by apply one_ext.
  - by apply one_ext.
  - by apply one_ext.
  - apply IH1.
    + destruct Hb as [Hb | Hb]; [by left | right].
      simpl in Hb. by apply andb_true_iff in Hb as [? ?].
    + intros x. apply IH2; [| done].
      destruct Hb as [Hb | Hb]; [by left | right].
      simpl in Hb. by apply andb_true_iff in Hb as [? ?].
  - rewrite (IH1 b b' st k k'), (IH2 b b' st k k'); try done.
    + destruct Hb as [Hb | Hb]; [by left | right].
      simpl in Hb. by apply andb_true_iff in Hb as [? ?].
    + destruct Hb as [Hb | Hb]; [by left | right].
      simpl in Hb. by apply andb_true_iff in Hb as [? ?].
  - apply star_loop_ext; [| done].
    intros st1 k1 k2 H12. by apply IH1.
  - apply IH1; [done |]. intros x. apply Hk.
  - rewrite (IH1 b b' st Some Some); [| done | done].
    destruct (m E dotall b' r1 st Some); [apply Hk | done].
  - destruct Hb as [-> | Hb]; [| done].
    destruct (b' && (off st =? 0)); [apply Hk | done].
  - destruct (rest st); [apply Hk | done].
Qed.

Lemma match_at_nobos r b b' ma s :
  nobos r = true → match_at E dotall b r ma s = match_at E dotall b' r ma s.
Proof. intros H. unfold match_at. apply m_ext; [by right | done]. Qed.

Lemma at_pos_nobos r b b' s :
  nobos r = true → at_pos E dotall r b s = at_pos E dotall r b' s.
Proof.
  intros H. unfold at_pos.
  by rewrite (match_at_nobos r b b' false s H), (match_at_nobos r b b' true s H).
Qed.

Lemma scan_nobos r b b' s skip :
  nobos r = true → scan E dotall r b s skip = scan E dotall r b' s skip.
Proof.
  intros H. destruct s as [|c s'], skip as [|n]; simpl; try done.
  - by rewrite (at_pos_nobos r b b' [] H).
  - by rewrite (at_pos_nobos r b b' (c :: s') H).
Qed.

Lemma startswith_app p s : startswith p (p ++ s) = true.
Proof. induction p as [|a p IH]; simpl; [done |]. by rewrite N.eqb_refl, IH. Qed.

Lemma startswith_split p s :
  startswith p s = true → s = p ++ drop (length p) s.
Proof.
  revert s. induction p as [|a p IH]; intros s; simpl; [done |].
  destruct s as [|b s]; [done |]. intros H.
  apply andb_true_iff in H as [Hab H]. apply N.eqb_eq in Hab as ->.
  simpl. f_equal. by apply IH.
Qed.

(** A literal pattern matches where the text starts with it. *)
Lemma m_Lit bos p :
  ∀ st k, m E dotall bos (Lit p) st k =
          if startswith p (rest st)
          then k (MState (off st + length p) (drop (length p) (rest st)) (caps st))
          else None.
Proof.
  induction p as [|a p IH]; intros [o s cs] k; simpl.
  - by rewrite Nat.add_0_r.
  - destruct p as [|b p].
    + simpl. unfold one. simpl. destruct s as [|x s]; [done |].
      rewrite andb_true_r, Nat.add_1_r. done.
    + change (Lit (a :: b :: p)) with (Seq (Chr a) (Lit (b :: p))).
      simpl m. unfold one at 1. simpl rest. destruct s as [|x s]; [done |].
      destruct (N.eqb a x); [| done]. simpl andb. rewrite IH. simpl rest.
      simpl off. simpl caps.
      replace (S o + length (b :: p)) with (o + S (length (b :: p))) by lia.
      done.
Qed.

(** Greedy repetition of a one-character pattern takes the longest run. *)
Lemma star_one_greedy f k l :
  ∀ n st tail res,
    rest st = l ++ tail → forallb f l = true →
    match tail with [] => True | c :: _ => f c = false end →
    length l ≤ n →
    k (MState (off st + length l) tail (caps st)) = Some res →
    star_loop (one f) true k n st = Some res.
Proof.
  induction l as [|c l IH]; intros n [o s cs] tail res Hs Hf Ht Hn Hk;
    simpl in *; subst s.
  - rewrite Nat.add_0_r in Hk. destruct n as [|n]; simpl; [done |].
    unfold one at 1. simpl. destruct tail as [|x tail]; simpl; [done |].
    by rewrite Ht.
  - destruct n as [|n]; [lia |]. simpl. unfold one at 1. simpl.
    apply andb_true_iff in Hf as [Hc Hf]. rewrite Hc.
    assert ((o <? S o) = true) as -> by (apply Nat.ltb_lt; lia).
    rewrite (IH n (MState (S o) (l ++ tail) cs) tail res); simpl; try done.
    + lia.
    + by replace (S (o + length l)) with (o + S (length l)) by lia.
Qed.
End PatternFacts.

(** ** The scan *)

Section ScanFacts.
Variable E : Env.
Variable dotall : bool.

Lemma match_at_advance bos r s st :
  match_at E dotall bos r true s = Some st → off st ≠ 0.
Proof.
  unfold match_at. intros H. apply m_extends in H as (st' & _ & H).
  simpl in H. destruct (off st' =? 0) eqn:Ho; [done |].
  injection H as <-. by apply Nat.eqb_neq.
Qed.

Lemma token_text_app a b : token_text (a ++ b) = token_text a ++ token_text b.
Proof. unfold token_text. by rewrite flat_map_app. Qed.

Lemma hits_app a b : hits (a ++ b) = hits a ++ hits b.
Proof. unfold hits. by rewrite flat_map_app. Qed.

Lemma hits_map_Hit hs : hits (map Hit hs) = hs.
Proof. induction hs as [|h hs IH]; simpl; [done |]. f_equal. exact IH. Qed.

(** The matches found at a position cover a prefix of the text ahead. *)
Lemma at_pos_text r bos s :
  token_text (map Hit (at_pos E dotall r bos s).1) =
  match (at_pos E dotall r bos s).2 with
  | Some n => take (S n) s
  | None => []
  end.
Proof.
  unfold at_pos.
  destruct (match_at E dotall bos r false s) as [st|] eqn:H1; [| done].
  destruct (off st) as [|n] eqn:Ho.
  - destruct (match_at E dotall bos r true s) as [st2|] eqn:H2; simpl.
    + rewrite Ho. apply match_at_advance in H2.
      destruct (off st2) as [|k]; [done |]. simpl.
      rewrite Nat.sub_0_r, app_nil_r. by destruct s.
    + rewrite Ho. by destruct s.
  - simpl. rewrite Ho. by rewrite app_nil_r.
Qed.

(** The tokens of a scan spell the text scanned. *)
Lemma scan_text r :
  ∀ s bos skip, token_text (scan E dotall r bos s skip) = drop skip s.
Proof.
  induction s as [|c s IH]; intros bos skip.
  - destruct skip as [|n]; simpl; [| done].
    rewrite at_pos_text. by destruct (at_pos E dotall r bos []).2.
  - destruct skip as [|n]; simpl; [| apply IH].
    rewrite token_text_app, at_pos_text.
    destruct (at_pos E dotall r bos (c :: s)).2 as [n|].
    + rewrite IH. simpl. f_equal. apply take_drop.
    + change (token_text (Gap c :: ?t)) with (c :: token_text t).
      by rewrite IH.
Qed.

Lemma no_hits_text (f : hit → str) ts :
  hits ts = [] →
  flat_map (fun x => match x with Gap c => [c] | Hit h => f h end) ts = token_text ts.
Proof.
  induction ts as [|[c|h] ts IH]; simpl; [done | | done].
  intros H. f_equal. by apply IH.
Qed.

(** Without a match, [re.sub] returns its argument. *)
Lemma re_sub_nomatch r t s :
  finditer E dotall r s = [] → re_sub E dotall r t s = s.
Proof.
  unfold finditer, re_sub. intros H.
  rewrite (no_hits_text (expand t) _ H). apply scan_text.
Qed.

(** What holds of every match attempt holds of every match of a scan. *)
Lemma at_pos_Forall (P : hit → Prop) r :
  (∀ bos ma s st, match_at E dotall bos r ma s = Some st → P (mk_hit r s st)) →
  ∀ bos s, Forall P (at_pos E dotall r bos s).1.
Proof.
  intros HP bos s. unfold at_pos.
  destruct (match_at E dotall bos r false s) as [st|] eqn:H1; [| by constructor].
  destruct (off st) as [|n].
  - destruct (match_at E dotall bos r true s) as [st2|] eqn:H2; simpl.
    + repeat constructor; by eapply HP.
    + repeat constructor; by eapply HP.
  - repeat constructor; by eapply HP.
Qed.

Lemma scan_Forall (P : hit → Prop) r :
  (∀ bos ma s st, match_at E dotall bos r ma s = Some st → P (mk_hit r s st)) →
  ∀ s bos skip, Forall P (hits (scan E dotall r bos s skip)).
Proof.
  intros HP. induction s as [|c s IH]; intros bos skip.
  - destruct skip as [|n]; simpl; [| constructor].
    rewrite hits_map_Hit. by apply at_pos_Forall.
  - destruct skip as [|n]; simpl; [| apply IH].
    rewrite hits_app, hits_map_Hit. apply Forall_app. split.
    + by apply at_pos_Forall.
    + destruct (at_pos E dotall r bos (c :: s)).2; apply IH.
Qed.

(** ** [re.split] *)

Lemma pieces_cons ts : ∃ seg more, pieces ts = Some seg :: more.
Proof.
  induction ts as [|[c|h] ts (seg & more & IH)]; simpl.
  - by eexists _, _.
  - rewrite IH. by eexists _, _.
  - by eexists _, _.
Qed.

Lemma pieces_length g ts :
  Forall (fun h => length (groups h) = g) (hits ts) →
  length (pieces ts) = S (S g * length (hits ts)).
Proof.
  induction ts as [|[c|h] ts IH]; simpl; intros H.
  - lia.
  - destruct (pieces_cons ts) as (seg & more & Hp). rewrite Hp in *.
    specialize (IH H). simpl in IH. simpl. lia.
  - apply Forall_cons in H as [Hh H]. rewrite length_app, Hh, (IH H).
    simpl. lia.
Qed.

Lemma pieces_Some ts :
  Forall (fun h => Forall is_Some (groups h)) (hits ts) →
  Forall is_Some (pieces ts).
Proof.
  induction ts as [|[c|h] ts IH]; simpl; intros H.
  - by repeat constructor.
  - destruct (pieces_cons ts) as (seg & more & Hp). rewrite Hp in *.
    specialize (IH H). apply Forall_cons in IH as [_ IH]. by constructor.
  - apply Forall_cons in H as [Hh H]. constructor; [done |].
    apply Forall_app. split; [done | by apply IH].
Qed.

Lemma pieces_single ts b :
  pieces ts = [Some b] → hits ts = [] ∧ token_text ts = b.
Proof.
  revert b. induction ts as [|[c|h] ts IH]; simpl; intros b.
  - by intros [= <-].
  - destruct (pieces_cons ts) as (seg & more & Hp). rewrite Hp.
    intros [= <- ->]. apply IH in Hp as [? ->]. done.
  - destruct (pieces_cons ts) as (seg & more & Hp). rewrite Hp.
    intros H. apply (f_equal length) in H. simpl in H.
    rewrite length_app in H. simpl in H. lia.
Qed.
End ScanFacts.

(** ** Splitting on a literal *)

Section LiteralFacts.
Variable E : Env.
Variable dotall : bool.

Lemma ngroups_Lit p : ngroups (Lit p) = 0.
Proof.
  induction p as [|a p IH]; [done |]. destruct p as [|b p]; [done |].
  change (Lit (a :: b :: p)) with (Seq (Chr a) (Lit (b :: p))).
  cbn [ngroups]. by rewrite IH.
Qed.

Lemma match_at_Lit bos p ma s :
  match_at E dotall bos (Lit p) ma s =
  if startswith p s
  then (if ma && (length p =? 0) then None
        else Some (MState (length p) (drop (length p) s) []))
  else None.
Proof. unfold match_at. by rewrite m_Lit. Qed.

Lemma at_pos_Lit bos a p s :
  at_pos E dotall (Lit (a :: p)) bos s =
  if startswith (a :: p) s
  then ([Hit_ (take (S (length p)) s) []], Some (length p))
  else ([], None).
Proof.
  unfold at_pos. rewrite match_at_Lit.
  destruct (startswith (a :: p) s); [| done].
  cbn [andb off length]. unfold mk_hit. rewrite ngroups_Lit. done.
Qed.

(** The matches of a literal are the occurrences [str.count] counts. *)
Lemma scan_Lit_count a p :
  ∀ s bos skip,
    length (hits (scan E dotall (Lit (a :: p)) bos s skip)) =
    count_from (a :: p) s skip.
Proof.
  induction s as [|c s IH]; intros bos skip.
  - destruct skip as [|n]; cbn [scan count_from]; [| done].
    rewrite hits_map_Hit, at_pos_Lit. done.
  - destruct skip as [|n]; [| apply IH].
    cbn [scan count_from]. rewrite hits_app, hits_map_Hit, at_pos_Lit.
    destruct (startswith (a :: p) (c :: s)).
    + cbn [fst snd length app]. rewrite IH. simpl. by rewrite Nat.sub_0_r.
    + cbn [fst snd length app]. change (hits (Gap c :: ?t)) with (hits t).
      apply IH.
Qed.

Lemma scan_Lit_groups p s bos skip :
  Forall (fun h => groups h = []) (hits (scan E dotall (Lit p) bos s skip)).
Proof.
  apply scan_Forall. intros b ma s' st _. unfold mk_hit.
  by rewrite ngroups_Lit.
Qed.

Lemma split_Lit_length a p s :
  length (re_split E dotall (Lit (a :: p)) s) = S (str_count (a :: p) s).
Proof.
  unfold re_split, str_count. rewrite (pieces_length 0).
  - rewrite scan_Lit_count. lia.
  - eapply Forall_impl; [apply scan_Lit_groups |]. by intros h ->.
Qed.

Lemma split_Lit_Some p s : Forall is_Some (re_split E dotall (Lit p) s).
Proof.
  unfold re_split. apply pieces_Some.
  eapply Forall_impl; [apply scan_Lit_groups |]. intros h ->. constructor.
Qed.

(** Two pieces: the text around the first occurrence. *)
Lemma split_Lit_two a p :
  ∀ s bos h b,
    pieces (scan E dotall (Lit (a :: p)) bos s 0) = [Some h; Some b] →
    s = h ++ (a :: p) ++ b ∧ str_find (a :: p) s = Some (length h).
Proof.
  induction s as [|c s IH]; intros bos h b.
  - cbn [scan]. rewrite at_pos_Lit. done.
  - cbn [scan]. rewrite at_pos_Lit.
    destruct (startswith (a :: p) (c :: s)) eqn:Hs; cbn [fst snd map app].
    + cbn [pieces groups app]. intros [= <- Hp].
      apply pieces_single in Hp as [_ Hp]. rewrite scan_text in Hp.
      cbn [str_find]. rewrite Hs. split; [| done].
      apply startswith_split in Hs. rewrite Hs at 1. simpl. by rewrite Hp.
    + cbn [pieces].
      destruct (pieces_cons (scan E dotall (Lit (a :: p)) false s 0))
        as (seg & more & Hp).
      rewrite Hp. intros [= <- ->]. apply IH in Hp as [-> Hf].
      cbn [str_find]. rewrite Hs, Hf. done.
Qed.
End LiteralFacts.

(** ** The page loop *)

Section LoopFacts.
Variable E : Env.

Lemma Forall2_compose {A} (R1 R2 R : A → A → Prop) l1 l2 l3 :
  (∀ x y z, R1 x y → R2 y z → R x z) →
  Forall2 R1 l1 l2 → Forall2 R2 l2 l3 → Forall2 R l1 l3.
Proof.
  intros HR H12. revert l3. induction H12 as [|x y l1 l2 Hxy H12 IH]; intros l3 H23.
  - inversion H23. constructor.
  - inversion H23 as [|y' z l2' l3' Hyz H23']; subst. constructor; [by eapply HR |].
    by apply IH.
Qed.

(** One page: every descriptor gets its fragment, or the first that
    cannot be added raises. *)
Lemma append_page_inr page pn :
  ∀ td td', append_page E page pn td = inr td' →
    Forall2 (fun kd kd' => kd'.1 = kd.1 ∧ fn kd'.2 = fn kd.2 ∧
               ∃ f, fragment E kd.1 page pn = inr f ∧ text kd'.2 = text kd.2 ++ [f])
            td td'.
Proof.
  induction td as [|[k d] td IH]; intros td'; simpl.
  - intros [= <-]. constructor.
  - destruct (add (extract E k page) pn) as [e|f] eqn:Hf; [done |].
    destruct (append_page E page pn td) as [e|td1]; [done |].
    intros [= <-]. constructor; [| by apply IH].
    simpl. split; [done |]. split; [done |]. by exists f.
Qed.

Lemma append_page_total page pn :
  ∀ td, (∀ k, k ∈ map fst td → ∃ f, fragment E k page pn = inr f) →
        ∃ td', append_page E page pn td = inr td'.
Proof.
  induction td as [|[k d] td IH]; intros H; simpl; [by eexists |].
  destruct (H k) as [f Hf]; [simpl; apply list_elem_of_here |].
  unfold fragment in Hf. rewrite Hf.
  destruct IH as [td' ->]; [| by eexists].
  intros k' Hk'. apply H. simpl. by apply list_elem_of_further.
Qed.

Lemma append_page_keys page pn td td' :
  append_page E page pn td = inr td' → map fst td' = map fst td.
Proof.
  intros H. apply append_page_inr in H.
  induction H as [|x y l l' (Hk & _) _ IH]; simpl; [done |]. by rewrite Hk, IH.
Qed.

Lemma is_content_Some pages j page :
  pages !! j = Some (Some page) →
  is_content pages j = negb (startswith (u "Page") page).
Proof. unfold is_content. by intros ->. Qed.

(** The loop from index [i] on. *)
Lemma split_loop_inr pages :
  ∀ todo i td td',
    todo = drop i pages →
    split_loop E pages i todo td = inr td' →
    Forall2 (collected E pages
               (filter (fun j => Is_true (is_content pages j)) (seq i (length todo))))
            td td'.
Proof.
  induction todo as [|[page|] todo IH]; intros i td td' Hdrop;
    cbn [split_loop length seq].
  - intros [= <-]. apply Forall2_same_length_lookup_2; [done |].
    intros j x y Hx Hy. rewrite Hx in Hy. injection Hy as <-.
    split; [done |]. split; [done |]. exists []. rewrite app_nil_r.
    split; [done | constructor].
  - assert (Hi : pages !! i = Some (Some page)).
    { rewrite <- (Nat.add_0_r i), <- lookup_drop, <- Hdrop. done. }
    assert (Hd : todo = drop (S i) pages).
    { rewrite <- (Nat.add_1_r i), <- drop_drop, <- Hdrop. done. }
    destruct (startswith (u "Page") page) eqn:Hp.
    + intros H. rewrite filter_cons_False.
      * by apply IH.
      * rewrite (is_content_Some _ _ _ Hi), Hp. simpl. tauto.
    + destruct (append_page E page (page_number pages i) td) as [e|td1] eqn:Ha;
        [done |].
      intros H. rewrite filter_cons_True.
      2:{ rewrite (is_content_Some _ _ _ Hi), Hp. done. }
      apply append_page_inr in Ha. apply (IH _ _ _ Hd) in H.
      eapply Forall2_compose; [| exact Ha | exact H].
      intros x y z (Hk1 & Hn1 & f & Hf & Ht1) (Hk2 & Hn2 & fs & Ht2 & Hfs).
      split; [congruence |]. split; [congruence |].
      exists (f :: fs). split.
      * rewrite Ht2, Ht1, <- app_assoc. done.
      * constructor; [by exists page | by rewrite <- Hk1].
  - done.
Qed.

Lemma split_loop_collected pages td td' :
  split_loop E pages 0 pages td = inr td' →
  Forall2 (collected E pages (content_indices pages)) td td'.
Proof. intros H. by apply (split_loop_inr pages pages 0 td td'). Qed.

Lemma split_pages_collected body td td' :
  split_pages E body td = inr td' →
  Forall2 (collected E (split_into_pages E body)
             (content_indices (split_into_pages E body))) td td'.
Proof. unfold split_pages. apply split_loop_collected. Qed.

(** The loop completes when every fragment can be added. *)
Lemma split_loop_total pages :
  ∀ todo i td,
    todo = drop i pages → Forall is_Some todo →
    (∀ j page k, pages !! j = Some (Some page) → is_content pages j = true →
                 k ∈ map fst td →
                 ∃ f, fragment E k page (page_number pages j) = inr f) →
    ∃ td', split_loop E pages i todo td = inr td'.
Proof.
  induction todo as [|[page|] todo IH]; intros i td Hdrop Hall Hf;
    cbn [split_loop].
  - by eexists.
  - assert (Hi : pages !! i = Some (Some page)).
    { rewrite <- (Nat.add_0_r i), <- lookup_drop, <- Hdrop. done. }
    assert (Hd : todo = drop (S i) pages).
    { rewrite <- (Nat.add_1_r i), <- drop_drop, <- Hdrop. done. }
    apply Forall_cons in Hall as [_ Hall].
    destruct (startswith (u "Page") page) eqn:Hp; [by apply IH |].
    destruct (append_page_total page (page_number pages i) td) as [td1 Ha].
    { intros k Hk. eapply Hf; [exact Hi | | exact Hk].
      by rewrite (is_content_Some _ _ _ Hi), Hp. }
    rewrite Ha. apply IH; [done | done |].
    intros j page' k Hj Hc Hk. eapply Hf; [exact Hj | exact Hc |].
    by rewrite <- (append_page_keys _ _ _ _ Ha).
  - apply Forall_cons in Hall as [[x Hx] _]. done.
Qed.
End LoopFacts.

(** ** The pages of a body *)

Section PageFacts.
Variable E : Env.

Lemma match_at_Grp dotall bos n r ma s st :
  match_at E dotall bos (Grp n r) ma s = Some st →
  cap_lookup n (caps st) = Some (0, off st).
Proof.
  unfold match_at. cbn [m]. intros H.
  apply m_extends in H as (st' & _ & H). cbn [off rest caps] in H.
  destruct (ma && (off st' =? 0)); [done |]. injection H as <-.
  cbn [caps off cap_lookup]. by rewrite Nat.eqb_refl.
Qed.

(** The page pattern is one group: the group of a match is the match. *)
Lemma page_hits s bos skip :
  Forall (fun h => groups h = [Some (whole h)])
         (hits (scan E false rx_page bos s skip)).
Proof.
  apply scan_Forall. intros b ma s' st H. unfold mk_hit.
  change (ngroups rx_page) with 1. cbn [seq map whole groups].
  unfold group_text. unfold rx_page in H.
  rewrite (match_at_Grp _ _ _ _ _ _ _ H). by rewrite Nat.sub_0_r, drop_0.
Qed.

Lemma pages_Some body : Forall is_Some (split_into_pages E body).
Proof.
  unfold split_into_pages, re_split. apply pieces_Some.
  eapply Forall_impl; [apply page_hits |]. intros h ->. by repeat constructor.
Qed.

(** [P] markers cut the body into [2P+1] segments. *)
Lemma pages_length body :
  length (split_into_pages E body) = 2 * length (page_markers E body) + 1.
Proof.
  unfold split_into_pages, re_split, page_markers, finditer.
  rewrite (pieces_length 1).
  - lia.
  - eapply Forall_impl; [apply page_hits |]. by intros h ->.
Qed.

Lemma count_even (f : nat → bool) :
  ∀ P, (∀ j, j < 2 * P + 1 → f j = Nat.even j) →
       length (filter (fun j => Is_true (f j)) (seq 0 (2 * P + 1))) = P + 1.
Proof.
  induction P as [|P IH]; intros Hf.
  - simpl. rewrite filter_cons_True; [done |]. rewrite Hf; [done | lia].
  - replace (2 * S P + 1) with ((2 * P + 1) + 2) by lia.
    rewrite seq_app, filter_app, length_app, IH.
    2:{ intros j Hj. apply Hf. lia. }
    cbn [seq]. rewrite filter_cons_False, filter_cons_True.
    + simpl. lia.
    + rewrite Hf; [| lia].
      replace (S (0 + (2 * P + 1))) with (2 + 2 * P) by lia.
      by rewrite Nat.even_add_mul_2.
    + rewrite Hf; [| lia].
      replace (0 + (2 * P + 1)) with (1 + 2 * P) by lia.
      rewrite Nat.even_add_mul_2. simpl. tauto.
Qed.

Lemma content_indices_alternating pages P :
  length pages = 2 * P + 1 → Forall is_Some pages →
  (∀ (j : nat) (p : str), pages !! j = Some (Some p) →
                          startswith (u "Page") p = Nat.odd j) →
  length (content_indices pages) = P + 1.
Proof.
  intros Hlen Hall Halt. unfold content_indices. rewrite Hlen.
  apply count_even. intros j Hj.
  destruct (lookup_lt_is_Some_2 pages j) as [x Hx]; [lia |].
  destruct (proj1 (Forall_lookup _ _) Hall j x Hx) as [p ->].
  rewrite (is_content_Some _ _ _ Hx), (Halt _ _ Hx).
  by rewrite <- Nat.negb_even, negb_involutive.
Qed.
End PageFacts.

(** ** Properties of the page loop *)

(** C1, as the specification words it, fails: the body ["text PageV01P001"]
    holds one page marker, and the loop appends two fragments, one for the
    text before the marker and one for the empty text after it. *)
Lemma page_count_invariant_fails : ¬ page_count_invariant py.
Proof.
  intros H.
  pose proof (H (u "text PageV01P001") [(key_matn, Descr (u "BK1") [])]) as H1.
  destruct (split_pages py (u "text PageV01P001") [(key_matn, Descr (u "BK1") [])])
    as [e|td'] eqn:Hs; vm_compute in Hs; [done |].
  injection Hs as <-.
  specialize (H1 _ ltac:(by repeat constructor) eq_refl).
  apply Forall_cons in H1 as [H1 _]. vm_compute in H1. done.
Qed.

(** C1, amended: when every marker segment of the split begins with
    ["Page"] and no other segment does, a body with [P] page markers adds
    [P + 1] fragments to every descriptor: one for each stretch of text
    around the markers, the last one closed by the sentinel. *)
Theorem page_count_plus_one (E : Env) (body : str) (td td' : texts) :
  Forall (fun kd => text kd.2 = []) td →
  split_pages E body td = inr td' →
  (∀ (j : nat) (p : str), split_into_pages E body !! j = Some (Some p) →
          startswith (u "Page") p = Nat.odd j) →
  Forall (fun kd => length (text kd.2) = length (page_markers E body) + 1) td'.
Proof.
  intros Hempty Hs Halt. unfold split_pages in Hs.
  apply split_loop_collected in Hs.
  pose proof (content_indices_alternating _ _ (pages_length E body)
                (pages_Some E body) Halt) as Hn.
  revert Hempty. induction Hs as [|kd kd' l l' (_ & _ & fs & Ht & Hfs) _ IH];
    intros Hempty; [constructor |].
  apply Forall_cons in Hempty as [He Hempty]. constructor; [| by apply IH].
  rewrite Ht, He. simpl. rewrite <- Hn. symmetry. by eapply Forall2_length.
Qed.

Lemma page_count_plus_one_witness :
  Forall (fun kd => length (text kd.2) = 1 + 1)
         [(key_matn, Descr (u "BK1") [u "PageV01P001"; sentinel])].
Proof.
  apply (page_count_plus_one py (u "text PageV01P001")
           [(key_matn, Descr (u "BK1") [])]).
  - by repeat constructor.
  - vm_compute. reflexivity.
  - intros j p Hj. destruct j as [|[|[|j]]]; vm_compute in Hj; try done;
      by injection Hj as <-.
Defined.

Lemma fragment_inr (E : Env) k page pn f :
  fragment E k page pn = inr f →
  ∃ t marker, extract E k page = IStr t ∧ pn = Some marker ∧ f = t ++ marker.
Proof.
  unfold fragment, add. destruct (extract E k page) as [t|l]; [| done].
  destruct pn as [marker|]; [| done]. intros [= <-]. by exists t, marker.
Qed.

Lemma no_match_extract (E : Env) k page :
  no_match E k page → extract E k page = IStr [].
Proof. intros (r & Hr & Hf). unfold extract. by rewrite Hr, Hf. Qed.

(** What [collected] says of the end of each fragment. *)
Lemma collected_next_segment (E : Env) (pages : list (option str)) (td td' : texts) :
  Forall2 (collected E pages (content_indices pages)) td td' →
  Forall2
    (fun kd kd' =>
       ∃ fs, text kd'.2 = text kd.2 ++ fs ∧
         Forall2
           (fun j f =>
              ∃ page t : str,
                pages !! j = Some (Some page) ∧
                extract E kd.1 page = IStr t ∧
                (∀ next : str, pages !! (S j) = Some (Some next) → f = t ++ next) ∧
                (length pages ≤ S j → f = t ++ sentinel))
           (content_indices pages) fs)
    td td'.
Proof.
  intros Hs. eapply Forall2_impl; [exact Hs |].
  intros kd kd' (_ & _ & fs & Ht & Hfs). exists fs. split; [done |].
  eapply Forall2_impl; [exact Hfs |].
  intros j f (page & Hj & Hf). apply fragment_inr in Hf as (t & marker & Ht' & Hm & ->).
  exists page, t. split; [done |]. split; [done |]. unfold page_number in Hm. split.
  - intros next Hn. rewrite Hn in Hm. by injection Hm as ->.
  - intros Hlen. rewrite (lookup_ge_None_2 _ _ Hlen) in Hm. by injection Hm as <-.
Qed.

(** C5: each fragment the loop appends ends with the segment that follows
    the one it was taken from, and with the sentinel when no segment
    follows. *)
Theorem marker_is_next_segment (E : Env) (body : str) (td td' : texts) :
  split_pages E body td = inr td' →
  Forall2
    (fun kd kd' =>
       ∃ fs, text kd'.2 = text kd.2 ++ fs ∧
         Forall2
           (fun j f =>
              ∃ page t : str,
                split_into_pages E body !! j = Some (Some page) ∧
                extract E kd.1 page = IStr t ∧
                (∀ next : str, split_into_pages E body !! (S j) = Some (Some next) →
                         f = t ++ next) ∧
                (length (split_into_pages E body) ≤ S j → f = t ++ sentinel))
           (content_indices (split_into_pages E body)) fs)
    td td'.
Proof.
  intros Hs. apply split_pages_collected in Hs.
  by apply collected_next_segment.
Qed.

Lemma marker_is_next_segment_witness :
  Forall2
    (fun kd kd' =>
       ∃ fs, text kd'.2 = text kd.2 ++ fs ∧
         Forall2
           (fun j f =>
              ∃ page t : str,
                split_into_pages py (u "text PageV01P001") !! j = Some (Some page) ∧
                extract py kd.1 page = IStr t ∧
                (∀ next : str, split_into_pages py (u "text PageV01P001") !! (S j)
                         = Some (Some next) → f = t ++ next) ∧
                (length (split_into_pages py (u "text PageV01P001")) ≤ S j →
                 f = t ++ sentinel))
           (content_indices (split_into_pages py (u "text PageV01P001"))) fs)
    [(key_matn, Descr (u "BK1") [])]
    [(key_matn, Descr (u "BK1") [u "PageV01P001"; sentinel])].
Proof.
  apply (marker_is_next_segment py (u "text PageV01P001")).
  vm_compute. reflexivity.
Defined.

(** C10: of the items [re.findall] returns for a page, the fragment holds
    the first; what follows it in the list has no effect. *)
Theorem first_match_only (E : Env) (page marker : str) (td td' : texts)
    (i : nat) (k : str) (d : descr) (r : regex) (x : str) (more : list item) :
  append_page E page (Some marker) td = inr td' →
  td !! i = Some (k, d) →
  re_compile E k = Some r →
  re_findall E true r page = IStr x :: more →
  td' !! i = Some (k, Descr (fn d) (text d ++ [x ++ marker])).
Proof.
  intros Ha Hi Hr Hf. apply append_page_inr in Ha.
  destruct (Forall2_lookup_l _ _ _ _ _ Ha Hi) as ([k' d'] & Hi' & Hk & Hn & f & Hfr & Ht).
  simpl in *. rewrite Hi'. unfold fragment, extract in Hfr.
  rewrite Hr, Hf in Hfr. simpl in Hfr. injection Hfr as <-.
  destruct d' as [n' t']. simpl in *. by subst.
Qed.

Lemma first_match_only_witness :
  [(u "a", Descr (u "BK1") [u "aPageV01P001"])] !! 0 =
  Some (u "a", Descr (u "BK1") ([] ++ [u "a" ++ u "PageV01P001"])).
Proof.
  apply (first_match_only py (u "a b a") (u "PageV01P001")
           [(u "a", Descr (u "BK1") [])] _ 0 (u "a") (Descr (u "BK1") [])
           (Chr (ch "a")) (u "a") [IStr (u "a")]).
  - vm_compute. reflexivity.
  - reflexivity.
  - vm_compute. reflexivity.
  - vm_compute. reflexivity.
Defined.

(** C4: a key that finds nothing on a segment gives the empty string and
    the segment's marker as its fragment, without raising; and as long as
    no key yields a tuple of groups, the loop goes through all segments and
    descriptors and returns. *)
Theorem no_match_is_not_fatal (E : Env) (body : str) (td : texts) :
  (∀ k page marker,
     no_match E k page → fragment E k page (Some marker) = inr ([] ++ marker)) ∧
  ((∀ j page k,
      split_into_pages E body !! j = Some (Some page) →
      is_content (split_into_pages E body) j = true →
      k ∈ map fst td → ∃ s, extract E k page = IStr s) →
   ∃ td',
     split_pages E body td = inr td' ∧
     Forall2
       (fun kd kd' =>
          ∃ fs, text kd'.2 = text kd.2 ++ fs ∧
            Forall2
              (fun j f =>
                 ∀ page : str, split_into_pages E body !! j = Some (Some page) →
                         no_match E kd.1 page →
                         ∃ marker : str, page_number (split_into_pages E body) j = Some marker ∧
                                   f = [] ++ marker)
              (content_indices (split_into_pages E body)) fs)
       td td').
Proof.
  split.
  - intros k page marker Hn. unfold fragment. by rewrite (no_match_extract _ _ _ Hn).
  - intros H. unfold split_pages.
    destruct (split_loop_total E (split_into_pages E body)
                (split_into_pages E body) 0 td) as [td' Hs].
    + done.
    + apply pages_Some.
    + intros j page k Hj Hc Hk. destruct (H j page k Hj Hc Hk) as [s Hs].
      unfold fragment. rewrite Hs. unfold page_number.
      destruct (split_into_pages E body !! S j) as [[p|]|] eqn:Hn; simpl.
      * by eexists.
      * pose proof (pages_Some E body) as Hall.
        destruct (proj1 (Forall_lookup _ _) Hall (S j) None Hn) as [? ?]. done.
      * by eexists.
    + exists td'. split; [done |]. apply split_loop_collected in Hs.
      eapply Forall2_impl; [exact Hs |].
      intros kd kd' (_ & _ & fs & Ht & Hfs). exists fs. split; [done |].
      eapply Forall2_impl; [exact Hfs |].
      intros j f (page & Hj & Hf) page' Hj' Hn. rewrite Hj in Hj'.
      injection Hj' as <-. apply fragment_inr in Hf as (t & marker & Ht' & Hm & ->).
      rewrite (no_match_extract _ _ _ Hn) in Ht'. injection Ht' as <-.
      by exists marker.
Qed.

Lemma no_match_is_not_fatal_witness :
  ∃ td',
    split_pages py (u "text PageV01P001") [(key_matn, Descr (u "BK1") [])] = inr td' ∧
    Forall2
      (fun kd kd' =>
         ∃ fs, text kd'.2 = text kd.2 ++ fs ∧
           Forall2
             (fun j f =>
                ∀ page : str, split_into_pages py (u "text PageV01P001") !! j = Some (Some page) →
                        no_match py kd.1 page →
                        ∃ marker : str,
                          page_number (split_into_pages py (u "text PageV01P001")) j
                          = Some marker ∧ f = [] ++ marker)
             (content_indices (split_into_pages py (u "text PageV01P001"))) fs)
      [(key_matn, Descr (u "BK1") [])] td'.
Proof.
  apply (proj2 (no_match_is_not_fatal py (u "text PageV01P001")
                  [(key_matn, Descr (u "BK1") [])])).
  intros j page k Hj _ Hk. apply list_elem_of_singleton in Hk as ->.
  destruct j as [|[|[|j]]]; vm_compute in Hj; try done; injection Hj as <-;
    eexists; vm_compute; reflexivity.
Defined.


(** ** Running the function *)

Lemma bind_Ok {A B} (c : M A) (f : A → M B) w b w' :
  bind c f w = Ok b w' → ∃ a w1, c w = Ok a w1 ∧ f a w1 = Ok b w'.
Proof.
  unfold bind. destruct (c w) as [a w1|e w1]; [| done]. intros H. by exists a, w1.
Qed.

Lemma read_file_Ok p w t w' : read_file p w = Ok t w' → files w !! p = Some t ∧ w' = w.
Proof. unfold read_file. destruct (files w !! p); [| done]. by intros [= -> ->]. Qed.

Lemma lift_Ok {A} (x : exn + A) w a w' : lift x w = Ok a w' → x = inr a ∧ w' = w.
Proof. destruct x; [done |]. by intros [= -> ->]. Qed.

Section HeaderFacts.
Variable E : Env.

Lemma header_end_cons : ∃ a p, header_end = a :: p.
Proof. vm_compute. by eexists _, _. Qed.

(** The split of line 60 yields two parts exactly when the marker occurs
    once. *)
Lemma split_header_count t :
  (str_count header_end t ≠ 1 → split_header E t = inl ValueError) ∧
  (str_count header_end t = 1 →
   ∃ header body, split_header E t = inr (header, body) ∧
                  t = header ++ header_end ++ body ∧
                  str_find header_end t = Some (length header)).
Proof.
  destruct header_end_cons as (a & p & Hh).
  pose proof (split_Lit_length E false a p t) as Hlen.
  pose proof (split_Lit_Some E false (a :: p) t) as Hsome.
  pose proof (split_Lit_two E false a p t true) as Htwo.
  unfold split_header, rx_header. rewrite Hh. unfold re_split in *.
  destruct (pieces (scan E false (Lit (a :: p)) true t 0)) as [|x [|y [|z l]]];
    cbn [length] in Hlen; split; intros Hc; try done; try lia.
  - by destruct x.
  - apply Forall_cons in Hsome as [[h ->] Hsome].
    apply Forall_cons in Hsome as [[b ->] _].
    exists h, b. split; [done |]. by apply Htwo.
  - by destruct x, y.
Qed.
End HeaderFacts.

(** [str_count] is zero when the text holds no occurrence at all. *)
Lemma count_from_zero a p :
  ∀ s skip, count_from (a :: p) s skip = 0 ↔
            ∀ i, skip ≤ i → startswith (a :: p) (drop i s) = false.
Proof.
  induction s as [|c s IH]; intros skip.
  - split; [| done]. intros _ i _. by rewrite drop_nil.
  - destruct skip as [|n]; cbn [count_from].
    + destruct (startswith (a :: p) (c :: s)) eqn:Hs.
      * split; [done |]. intros H. specialize (H 0 ltac:(lia)).
        rewrite drop_0 in H. congruence.
      * rewrite IH. split.
        -- intros H [|i] _; [done |]. apply H. lia.
        -- intros H i _. apply (H (S i)). lia.
    + rewrite IH. split.
      * intros H [|i] Hi; [lia |]. apply H. lia.
      * intros H i Hi. apply (H (S i)). lia.
Qed.

Lemma str_count_zero a p s :
  str_count (a :: p) s = 0 ↔ ¬ ∃ x y, s = x ++ (a :: p) ++ y.
Proof.
  unfold str_count. rewrite count_from_zero. split.
  - intros H (x & y & ->). specialize (H (length x) ltac:(lia)).
    rewrite drop_app_length, startswith_app in H. done.
  - intros H i _. destruct (startswith (a :: p) (drop i s)) eqn:Hs; [| done].
    exfalso. apply H. apply startswith_split in Hs.
    exists (take i s), (drop (length (a :: p)) (drop i s)).
    by rewrite <- Hs, take_drop.
Qed.

(** C6: when the header-end marker occurs in the document not at all or
    more than once (occurrences counted from the left without overlap, as
    [str.count] does), the call raises [ValueError] and leaves every file as
    it was; when it occurs once, line 60 yields the header and the body. *)
Theorem header_marker_must_occur_once (E : Env) (fp outfolder : str)
    (td : texts) (clean_text : option (str → str)) (w : world) (t : str) :
  files w !! fp = Some t →
  (str_count header_end t ≠ 1 →
   split_multitext E fp outfolder td clean_text w = Raise ValueError w) ∧
  (str_count header_end t = 1 →
   ∃ header body, split_header E t = inr (header, body) ∧
                  t = header ++ header_end ++ body).
Proof.
  intros Hf. destruct (split_header_count E t) as [Hne Heq]. split.
  - intros Hc. unfold split_multitext, split_and_write, bind at 1.
    unfold bind at 1. unfold read_file at 1. rewrite Hf.
    unfold bind at 1. by rewrite (Hne Hc).
  - intros Hc. destruct (Heq Hc) as (h & b & Hs & Ht & _). by exists h, b.
Qed.

Lemma header_marker_must_occur_once_witness :
  (str_count header_end (u "no marker here") ≠ 1 →
   split_multitext py (u "src") (u "out") [(key_matn, Descr (u "BK1") [])] None
     (World {[ u "src" := u "no marker here" ]} (fun _ => true) [])
   = Raise ValueError (World {[ u "src" := u "no marker here" ]} (fun _ => true) [])) ∧
  (str_count header_end (u "no marker here") = 1 →
   ∃ header body, split_header py (u "no marker here") = inr (header, body) ∧
                  u "no marker here" = header ++ header_end ++ body).
Proof.
  apply (header_marker_must_occur_once py (u "src") (u "out")
           [(key_matn, Descr (u "BK1") [])] None
           (World {[ u "src" := u "no marker here" ]} (fun _ => true) [])).
  vm_compute. reflexivity.
Defined.

(** The marker may overlap itself by its [#]: two overlapping occurrences
    count as one, and the split goes through. *)
Example header_marker_overlap :
  str_count header_end (u "#META#Header#End#META#Header#End#") = 1 ∧
  split_header py (u "#META#Header#End#META#Header#End#")
  = inr ([], u "META#Header#End#").
Proof. split; vm_compute; reflexivity. Qed.

(** ** What is written *)

Section WriteFacts.
Variable E : Env.

Lemma open_w_Ok p w x w' :
  open_w p w = Ok x w' → files w' = <[p := []]> (files w).
Proof. unfold open_w. destruct (writable w p); [| done]. by intros [= _ <-]. Qed.

Lemma write_Ok p t w x w' : write p t w = Ok x w' → files w' = <[p := t]> (files w).
Proof. unfold write. by intros [= _ <-]. Qed.

Lemma print_Ok l w x w' : print l w = Ok x w' → files w' = files w.
Proof. unfold print. by intros [= _ <-]. Qed.

Lemma write_descr_Ok outfolder header uri yml_str d w x w' :
  write_descr E outfolder header uri yml_str d w = Ok x w' →
  ∃ y, files w' =
       <[path_join outfolder (fn d) ++ u ".yml" := y]>
         (<[path_join outfolder (fn d) ++ u ".yml" := []]>
            (<[path_join outfolder (fn d) := header ++ concat (text d)]>
               (<[path_join outfolder (fn d) := []]> (files w)))).
Proof.
  unfold write_descr. intros H.
  apply bind_Ok in H as (? & w1 & H1 & H). apply open_w_Ok in H1.
  apply bind_Ok in H as (? & w2 & H2 & H). apply write_Ok in H2.
  apply bind_Ok in H as (? & w3 & H3 & H). apply open_w_Ok in H3.
  apply bind_Ok in H as (y & w4 & H4 & H). apply lift_Ok in H4 as [_ ->].
  apply write_Ok in H. exists y. by rewrite H, H3, H2, H1.
Qed.

Lemma for_each_cons_Ok {A} (f : A → M unit) a l w x w' :
  for_each (a :: l) f w = Ok x w' →
  ∃ y w1, f a w = Ok y w1 ∧ for_each l f w1 = Ok x w'.
Proof. simpl. apply bind_Ok. Qed.

(** Writing the descriptors leaves other paths alone. *)
Lemma write_all_frame outfolder header uri yml_str ds :
  ∀ w x w' p,
    for_each ds (write_descr E outfolder header uri yml_str) w = Ok x w' →
    p ∉ name_paths outfolder (map fn ds) →
    files w' !! p = files w !! p.
Proof.
  induction ds as [|d ds IH]; intros w x w' p H Hp.
  - simpl in H. by injection H as _ <-.
  - apply for_each_cons_Ok in H as (y & w1 & Hd & H).
    apply write_descr_Ok in Hd as (c & Hd).
    cbn [map name_paths flat_map app] in Hp.
    apply not_elem_of_cons in Hp as [Hp1 Hp].
    apply not_elem_of_cons in Hp as [Hp2 Hp].
    rewrite (IH _ _ _ _ H Hp), Hd.
    by rewrite !lookup_insert_ne.
Qed.

(** With distinct paths, each descriptor's file holds the header and the
    fragments joined. *)
Lemma write_all_lookup outfolder header uri yml_str ds :
  ∀ w x w',
    for_each ds (write_descr E outfolder header uri yml_str) w = Ok x w' →
    NoDup (name_paths outfolder (map fn ds)) →
    Forall (fun d => files w' !! path_join outfolder (fn d)
                     = Some (header ++ concat (text d))) ds.
Proof.
  induction ds as [|d ds IH]; intros w x w' H Hnd; [constructor |].
  apply for_each_cons_Ok in H as (y & w1 & Hd & H).
  apply write_descr_Ok in Hd as (c & Hd).
  cbn [map name_paths flat_map app] in Hnd.
  apply NoDup_cons in Hnd as [Hn1 Hnd]. apply NoDup_cons in Hnd as [Hn2 Hnd].
  apply not_elem_of_cons in Hn1 as [Hne Hn1].
  constructor; [| by eapply IH].
  rewrite (write_all_frame _ _ _ _ _ _ _ _ _ H Hn1), Hd.
  rewrite !lookup_insert_ne by done. by rewrite lookup_insert_eq.
Qed.

Lemma count_all_Ok outfolder ds :
  ∀ w ns w', count_all E outfolder ds w = Ok ns w' → w' = w.
Proof.
  induction ds as [|d ds IH]; intros w ns w' H; simpl in H.
  - by injection H as _ <-.
  - apply bind_Ok in H as (n & w1 & H1 & H). unfold ar_cnt_file in H1.
    apply bind_Ok in H1 as (t & w2 & H1 & H1'). apply read_file_Ok in H1 as [_ ->].
    injection H1' as _ <-.
    apply bind_Ok in H as (ns' & w3 & H2 & H). apply IH in H2 as ->.
    by injection H as _ <-.
Qed.

(** The report prints and writes no file. *)
Lemma report_Ok fp outfolder ds w x w' :
  report E fp outfolder ds w = Ok x w' → files w' = files w.
Proof.
  unfold report. intros H.
  apply bind_Ok in H as (n & w1 & H1 & H). unfold ar_cnt_file in H1.
  apply bind_Ok in H1 as (t & w2 & H1 & H1'). apply read_file_Ok in H1 as [_ ->].
  injection H1' as _ <-.
  apply bind_Ok in H as (? & w3 & H3 & H). apply print_Ok in H3.
  apply bind_Ok in H as (ns & w4 & H4 & H). apply count_all_Ok in H4 as ->.
  apply bind_Ok in H as (? & w5 & H5 & H). apply print_Ok in H5.
  apply print_Ok in H. congruence.
Qed.

Lemma split_pages_names body td td' :
  split_pages E body td = inr td' →
  map (fun kd => fn kd.2) td' = map (fun kd => fn kd.2) td.
Proof.
  intros H. unfold split_pages in H. apply split_loop_collected in H.
  induction H as [|kd kd' l l' (_ & Hn & _) _ IH]; simpl; [done |].
  by rewrite Hn, IH.
Qed.
End WriteFacts.

(** C3: when the function returns, the file it wrote for every descriptor
    before any cleaning holds the text of the source before the first
    header-end marker, the marker (and the two line breaks line 61 adds),
    then the descriptor's fragments.  The output paths are taken to be
    distinct; without a cleaning function these files are the final ones. *)
Theorem header_is_preserved (E : Env) (fp outfolder : str) (td td' : texts)
    (clean_text : option (str → str)) (w w' : world) (t : str) :
  files w !! fp = Some t →
  split_multitext E fp outfolder td clean_text w = Ok td' w' →
  NoDup (output_paths outfolder td) →
  ∃ (w1 : world) (header body : str),
    split_and_write E fp outfolder td w = Ok td' w1 ∧
    (clean_text = None → w' = w1) ∧
    t = header ++ header_end ++ body ∧
    str_find header_end t = Some (length header) ∧
    Forall (fun kd => files w1 !! path_join outfolder (fn kd.2)
                      = Some (header ++ header_end ++ u "\n\n" ++ concat (text kd.2)))
           td'.
Proof.
  intros Hf H Hnd. unfold split_multitext in H.
  apply bind_Ok in H as (td1 & w1 & Hw & H).
  apply bind_Ok in H as (? & w8 & H8 & H). injection H as -> <-.
  exists w1. pose proof Hw as H. unfold split_and_write in H.
  apply bind_Ok in H as (t' & w2 & H1 & H). apply read_file_Ok in H1 as [H1 ->].
  rewrite Hf in H1. injection H1 as <-.
  apply bind_Ok in H as ([h b] & w2 & H2 & H). apply lift_Ok in H2 as [H2 ->].
  apply bind_Ok in H as (td2 & w3 & H3 & H). apply lift_Ok in H3 as [H3 ->].
  apply bind_Ok in H as (yml & w4 & H4 & H). apply read_file_Ok in H4 as [_ ->].
  apply bind_Ok in H as (? & w5 & H5 & H).
  apply bind_Ok in H as (? & w6 & H6 & H). apply report_Ok in H6.
  injection H as -> <-. cbn [fst snd] in *.
  destruct (split_header_count E t) as [Hne Heq].
  destruct (decide (str_count header_end t = 1)) as [Hc|Hc];
    [| rewrite (Hne Hc) in H2; done].
  destruct (Heq Hc) as (h' & b' & Hs & Ht & Hfind). rewrite Hs in H2.
  injection H2 as Eh Eb. subst h' b'. exists h, b. split; [done |].
  split; [by intros ->; injection H8 as <- |]. split; [done |]. split; [done |].
  apply write_all_lookup in H5.
  - rewrite Forall_map in H5. eapply Forall_impl; [exact H5 |].
    intros kd Hkd. simpl in Hkd. rewrite H6, Hkd. f_equal.
    by rewrite <- !app_assoc.
  - unfold output_paths in Hnd. rewrite map_map.
    by rewrite (split_pages_names E _ _ _ H3).
Qed.

Lemma header_is_preserved_witness :
  ∃ td' w' w1 (header body : str),
    split_multitext py (u "src") (u "out") scenario_texts (Some (clean py))
      scenario_world = Ok td' w' ∧
    split_and_write py (u "src") (u "out") scenario_texts scenario_world = Ok td' w1 ∧
    (Some (clean py) = None → w' = w1) ∧
    scenario_doc = header ++ header_end ++ body ∧
    str_find header_end scenario_doc = Some (length header) ∧
    Forall (fun kd => files w1 !! path_join (u "out") (fn kd.2)
                      = Some (header ++ header_end ++ u "\n\n" ++ concat (text kd.2)))
           td'.
Proof.
  destruct (split_multitext py (u "src") (u "out") scenario_texts (Some (clean py))
              scenario_world) as [td' w'|e w'] eqn:H.
  - destruct (header_is_preserved py (u "src") (u "out") scenario_texts td'
                (Some (clean py)) scenario_world w' scenario_doc)
      as (w1 & header & body & Hres).
    + vm_compute. reflexivity.
    + exact H.
    + apply (bool_decide_unpack _). vm_compute. exact I.
    + exists td', w', w1, header, body. split; [reflexivity | exact Hres].
  - vm_compute in H. discriminate H.
Defined.

(** C2: what the function writes in the scenario.  The marker segments
    begin with a line break, pass the test of line 68 and are handled as
    content; each descriptor thus receives every segment of the body, and
    the second one the commentary twice. *)
Theorem scenario_outputs :
  ∃ td' w',
    split_multitext py (u "src") (u "out") scenario_texts None scenario_world
    = Ok td' w' ∧
    files w' !! u "out/BK1" =
      Some (u "#META#Header#End#\n\n" ++ u "\n\nPageV01P001\n" ++ u "متن نص"
            ++ u "\nPageV01P002\n" ++ u "### | [حاشية الشرواني] تعليق"
            ++ u "\nPageV01P003" ++ sentinel) ∧
    files w' !! u "out/BK2" =
      Some (u "#META#Header#End#\n\n" ++ u "\n\nPageV01P001\n" ++ u "متن نص"
            ++ u "\nPageV01P002\n" ++ u "### | [حاشية الشرواني] تعليق"
            ++ u "### | [حاشية الشرواني] تعليق" ++ u "\nPageV01P003" ++ sentinel).
Proof.
  eexists _, _. split; [vm_compute; reflexivity |].
  split; vm_compute; reflexivity.
Qed.

(** C7: the file name is used as a pattern, so its dot matches any
    character: the sidecar written differs from the original with the
    name replaced, where the original holds a near miss of the name. *)
Theorem sidecar_near_miss_is_renamed :
  ∃ td' w',
    split_multitext py (u "in/0974Ibn.Tuhfa-ara1") (u "out") sidecar_texts None
      sidecar_world = Ok td' w' ∧
    files w' !! u "out/0974Ibn.TuhfaBK1-ara1.yml" =
      Some (u "#URI#: 0974Ibn.TuhfaBK1-ara1\n#NOTE#: was 0974Ibn.TuhfaBK1-ara1") ∧
    str_replace (u "0974Ibn.Tuhfa-ara1") (u "0974Ibn.TuhfaBK1-ara1") sidecar_yml =
      u "#URI#: 0974Ibn.TuhfaBK1-ara1\n#NOTE#: was 0974Ibn_Tuhfa-ara1".
Proof.
  eexists _, _. split; [vm_compute; reflexivity |].
  split; vm_compute; reflexivity.
Qed.

(** ** [clean] applied twice *)

Section CleanFacts.
Variable E : Env.

Lemma lstrip_lstrip s : lstrip E (lstrip E s) = lstrip E s.
Proof.
  induction s as [|c s IH]; simpl; [done |].
  destruct (isspace E c) eqn:Hc; [done |]. simpl. by rewrite Hc.
Qed.

Lemma lstrip_head s c y : lstrip E s = c :: y → isspace E c = false.
Proof.
  induction s as [|x s IH]; simpl; [done |].
  destruct (isspace E x) eqn:Hx; [done |]. by intros [= <- _].
Qed.

Lemma lstrip_snoc s c :
  isspace E c = false → ∃ y, lstrip E (s ++ [c]) = y ++ [c].
Proof.
  intros Hc. induction s as [|x s IH]; simpl.
  - rewrite Hc. by exists [].
  - destruct (isspace E x); [done |]. by exists (x :: s).
Qed.

(** [str.strip] changes nothing the second time. *)
Lemma strip_strip s : strip E (strip E s) = strip E s.
Proof.
  unfold strip. destruct (lstrip E s) as [|c a] eqn:Ha; [done |].
  pose proof (lstrip_head _ _ _ Ha) as Hc.
  cbn [rev]. destruct (lstrip_snoc (rev a) c Hc) as [y Hy].
  rewrite Hy, rev_app_distr. cbn [rev app lstrip]. rewrite Hc.
  cbn [rev]. rewrite rev_involutive, <- Hy, lstrip_lstrip, Hy, rev_app_distr.
  done.
Qed.

Lemma clean_is_stripped t : strip E (clean E t) = clean E t.
Proof. unfold clean. apply strip_strip. Qed.
End CleanFacts.

(** C8, as the specification words it, fails: cleaning ["<<b>b>"] removes
    the inner tag and leaves ["<b>"], which a second cleaning removes. *)
Lemma clean_not_idempotent : ¬ ∀ t : str, clean py (clean py t) = clean py t.
Proof. intros H. specialize (H (u "<<b>b>")). vm_compute in H. discriminate H. Qed.

(** C8, amended: cleaning a second time changes nothing when none of the
    seven rules has a match left in the cleaned text. *)
Theorem clean_idempotent_when_settled (E : Env) (t : str) :
  Forall (fun r => finditer E false r (clean E t) = []) clean_rules →
  clean E (clean E t) = clean E t.
Proof.
  intros H. unfold clean_rules in H.
  apply Forall_cons in H as [H1 H]. apply Forall_cons in H as [H2 H].
  apply Forall_cons in H as [H3 H]. apply Forall_cons in H as [H4 H].
  apply Forall_cons in H as [H5 H]. apply Forall_cons in H as [H6 H].
  apply Forall_cons in H as [H7 _].
  pose proof (clean_is_stripped E t) as Hs.
  remember (clean E t) as x eqn:Hx. clear Hx.
  unfold clean, remove_html_tags, remove_no_page_number, remove_empty_paragraphs,
    remove_hash_before_page, remove_empty_sharh_pages, tag_subheadings,
    remove_hashiya_tags.
  rewrite (re_sub_nomatch E false rx_tag _ x H1).
  rewrite (re_sub_nomatch E false rx_nopage _ x H2).
  rewrite (re_sub_nomatch E false rx_emptypar _ x H3).
  rewrite (re_sub_nomatch E false rx_hashpage _ x H4).
  rewrite (re_sub_nomatch E false rx_emptysharh _ x H5).
  rewrite (re_sub_nomatch E false rx_subhead _ x H6).
  rewrite (re_sub_nomatch E false rx_hashiya _ x H7). exact Hs.
Qed.

Lemma clean_idempotent_when_settled_witness :
  clean py (clean py (u "  باب الطهارة \n")) = clean py (u "  باب الطهارة \n").
Proof.
  apply (clean_idempotent_when_settled py (u "  باب الطهارة \n")).
  apply (bool_decide_unpack _). vm_compute. exact I.
Defined.

(** ** The rule for commentary tags *)

Section HashiyaFacts.
Variable E : Env.

Lemma str_find_first p :
  ∀ s n, str_find p s = Some n →
         ∀ i, i < n → startswith p (drop i s) = false.
Proof.
  induction s as [|c s IH]; intros n; cbn [str_find].
  - destruct (startswith p []); [| done]. intros [= <-] i Hi. lia.
  - destruct (startswith p (c :: s)) eqn:Hp.
    + intros [= <-] i Hi. lia.
    + destruct (str_find p s) as [k|] eqn:Hk; [| done]. intros [= <-] i Hi.
      destruct i as [|i]; [done |]. simpl. apply (IH k); [done | lia].
Qed.

(** Where no match starts, the scan copies the text. *)
Lemma scan_copies_prefix dotall r :
  nobos r = true →
  ∀ p s bos,
    (∀ i b, i < length p → match_at E dotall b r false (drop i (p ++ s)) = None) →
    scan E dotall r bos (p ++ s) 0 = map Gap p ++ scan E dotall r bos s 0.
Proof.
  intros Hr. induction p as [|c p IH]; intros s bos H; [done |].
  cbn [app scan]. unfold at_pos.
  pose proof (H 0 bos ltac:(simpl; lia)) as H0. cbn [drop app] in H0.
  rewrite H0. cbn [fst snd map app].
  rewrite (IH s false).
  - by rewrite (scan_nobos E dotall r false bos s 0 Hr).
  - intros i b Hi. apply (H (S i) b). simpl. lia.
Qed.

(** After a match the scan resumes where the match ended. *)
Lemma scan_skips dotall r :
  ∀ s n bos, S n ≤ length s →
             scan E dotall r bos s (S n) = scan E dotall r false (drop (S n) s) 0.
Proof.
  induction s as [|c s IH]; intros n bos Hn; simpl in Hn; [lia |].
  cbn [scan]. destruct n as [|n]; [done |]. rewrite IH; [done | lia].
Qed.

Lemma dots_of_line l : Forall (fun c => c ≠ 10%N) l → forallb (dot_match false) l = true.
Proof.
  induction 1 as [|c l Hc _ IH]; [done |]. simpl. rewrite IH, andb_true_r.
  unfold dot_match. simpl. by apply negb_true_iff, N.eqb_neq.
Qed.

(** The rule matches a tag and the rest of its line. *)
Lemma match_at_hashiya bos ma c l rest_ :
  Forall (fun x => x ≠ 10%N) (c :: l) →
  (rest_ = [] ∨ ∃ tail, rest_ = 10%N :: tail) →
  match_at E false bos rx_hashiya ma (hashiya_tag ++ (c :: l) ++ rest_) =
  Some (MState (length hashiya_tag + S (length l)) rest_ []).
Proof.
  intros Hl Hrest. unfold match_at, rx_hashiya.
  change (Cat [Lit hashiya_tag; Plus true Dot])
    with (Seq (Lit hashiya_tag) (Seq Dot (Star true Dot))).
  cbn [m]. rewrite m_Lit. cbn [rest off caps].
  rewrite startswith_app, drop_app_length. cbn [app]. unfold one at 1.
  cbn [rest off caps]. apply Forall_cons in Hl as [Hc Hl].
  assert (dot_match false c = true) as ->.
  { unfold dot_match. simpl. by apply negb_true_iff, N.eqb_neq. }
  change (m E false bos Dot) with (one (dot_match false)).
  cbn [rest]. apply (star_one_greedy (dot_match false) _ l _ _ rest_).
  - done.
  - by apply dots_of_line.
  - destruct Hrest as [-> | [tail ->]]; done.
  - rewrite length_app. lia.
  - cbn [off caps].
    replace (S (0 + length hashiya_tag) + length l)
      with (length hashiya_tag + S (length l)) by lia.
    assert ((length hashiya_tag + S (length l) =? 0) = false) as ->
      by (apply Nat.eqb_neq; lia).
    by rewrite andb_false_r.
Qed.

Lemma match_at_hashiya_none bos ma s :
  startswith hashiya_tag s = false → match_at E false bos rx_hashiya ma s = None.
Proof.
  intros H. unfold match_at, rx_hashiya.
  change (Cat [Lit hashiya_tag; Plus true Dot])
    with (Seq (Lit hashiya_tag) (Seq Dot (Star true Dot))).
  cbn [m]. rewrite m_Lit. cbn [rest]. by rewrite H.
Qed.
End HashiyaFacts.

Lemma scan_hit (E : Env) dotall r s bos st n :
  match_at E dotall bos r false s = Some st → off st = S n → S n ≤ length s →
  scan E dotall r bos s 0 = Hit (mk_hit r s st) :: scan E dotall r false (drop (S n) s) 0.
Proof.
  intros Hm Ho Hn. destruct s as [|c s]; simpl in Hn; [lia |].
  cbn [scan]. unfold at_pos. rewrite Hm, Ho. cbn [fst snd map app].
  destruct n as [|n]; [done |]. rewrite scan_skips; [done | lia].
Qed.

Lemma copy_gaps (f : hit → str) p :
  flat_map (fun x => match x with Gap c => [c] | Hit h => f h end) (map Gap p) = p.
Proof. induction p as [|c p IH]; simpl; [done |]. by rewrite IH. Qed.

(** C9, as the specification words it, fails: of ["### | [حاشية x\nabc"]
    the rule removes the first line and keeps the line break and ["abc"]. *)
Lemma hashiya_rule_keeps_the_next_line : ¬ discards_to_end_of_text py.
Proof.
  intros H.
  specialize (H [] (u " x\nabc") ltac:(vm_compute; reflexivity)).
  vm_compute in H. discriminate H.
Qed.

(** C9, amended: the first commentary-start tag of a text is removed
    together with what follows it on its line, when something follows it
    there; the text before the tag is kept, and the rule goes on with the
    text from the line break on. *)
Theorem hashiya_tag_removed_to_end_of_line (E : Env) (p l rest_ : str) :
  str_find hashiya_tag (p ++ hashiya_tag ++ l ++ rest_) = Some (length p) →
  l ≠ [] →
  Forall (fun c => c ≠ 10%N) l →
  (rest_ = [] ∨ ∃ tail : str, rest_ = 10%N :: tail) →
  remove_hashiya_tags E (p ++ hashiya_tag ++ l ++ rest_) =
  p ++ remove_hashiya_tags E rest_.
Proof.
  intros Hfind Hl Hline Hrest. destruct l as [|c l]; [done |].
  unfold remove_hashiya_tags, re_sub.
  rewrite scan_copies_prefix; [| done |].
  - rewrite flat_map_app, copy_gaps. f_equal.
    rewrite (scan_hit E false rx_hashiya _ true _ (length hashiya_tag + length l)
               (match_at_hashiya E true false c l rest_ Hline Hrest)).
    + cbn [flat_map]. unfold expand at 1. cbn [flat_map app].
      replace (S (length hashiya_tag + length l))
        with (length (hashiya_tag ++ c :: l)) by (rewrite length_app; simpl; lia).
      change (c :: l ++ rest_) with ((c :: l) ++ rest_).
      rewrite (app_assoc hashiya_tag (c :: l) rest_), drop_app_length.
      by rewrite (scan_nobos E false rx_hashiya false true rest_ 0).
    + cbn [off]. lia.
    + rewrite !length_app. simpl. lia.
  - intros i b Hi. apply match_at_hashiya_none.
    by apply (str_find_first _ _ _ Hfind).
Qed.

Lemma hashiya_tag_removed_to_end_of_line_witness :
  remove_hashiya_tags py (u "متن\n" ++ hashiya_tag ++ u " الشرواني] قوله" ++ u "\nباب")
  = u "متن\n" ++ remove_hashiya_tags py (u "\nباب").
Proof.
  apply (hashiya_tag_removed_to_end_of_line py (u "متن\n") (u " الشرواني] قوله")
           (u "\nباب")).
  - vm_compute. reflexivity.
  - discriminate.
  - apply (bool_decide_unpack _). vm_compute. exact I.
  - right. eexists. vm_compute. reflexivity.
Defined.

(** In the scenario of C2 the keys make no difference to this: every
    descriptor receives seven fragments, and they end with the seven
    segments of the body in turn, the matn and the commentary among them. *)
Lemma scenario_any_keys (compile : str → option regex) (td td' : texts) :
  split_pages (py_with compile) scenario_body td = inr td' →
  Forall2
    (fun kd kd' =>
       ∃ t0 t1 t2 t3 t4 t5 t6 : str,
         text kd'.2 =
         text kd.2 ++ [t0 ++ u "\n\nPageV01P001\n"; t1 ++ u "متن نص";
                       t2 ++ u "\nPageV01P002\n";
                       t3 ++ u "### | [حاشية الشرواني] تعليق";
                       t4 ++ u "\nPageV01P003"; t5 ++ []; t6 ++ sentinel])
    td td'.
Proof.
  intros H. apply split_pages_collected, collected_next_segment in H.
  eapply Forall2_impl; [exact H |]. clear H.
  intros kd kd' (fs & Ht & Hfs).
  assert (Hc : content_indices (split_into_pages (py_with compile) scenario_body)
               = [0; 1; 2; 3; 4; 5; 6]) by (vm_compute; reflexivity).
  rewrite Hc in Hfs. clear Hc.
  repeat match goal with
         | H : Forall2 _ (_ :: _) _ |- _ =>
             apply Forall2_cons_inv_l in H as (? & ? & (? & ? & _ & _ & ? & ?) & H & ->)
         end.
  apply Forall2_nil_inv_l in Hfs as ->.
  repeat match goal with
         | H : ∀ next : list N, _ !! _ = Some (Some next) → _ = _ |- _ =>
             specialize (H _ ltac:(vm_compute; reflexivity)); vm_compute in H
         end.
  match goal with
  | H : length _ ≤ 7 → _ = _ |- _ =>
      specialize (H ltac:(vm_compute; lia)); vm_compute in H
  end.
  subst. by eexists _, _, _, _, _, _, _.
Qed.

(** ** Texts no rule of [clean] applies to *)

Section TriggerFacts.
Variable E : Env.

Lemma startswith_needs_head p a s :
  head p = Some a → a ∉ s → startswith p s = false.
Proof.
  destruct p as [|a' p]; [done |]. intros [= ->] Hs.
  destruct s as [|c s]; [done |]. simpl.
  apply not_elem_of_cons in Hs as [Hne _].
  by apply N.eqb_neq in Hne as ->.
Qed.

(** A pattern that matches at no position finds nothing. *)
Lemma finditer_nowhere dotall r x :
  nobos r = true →
  (∀ i b ma, match_at E dotall b r ma (drop i x) = None) →
  finditer E dotall r x = [].
Proof.
  intros Hr H. unfold finditer. rewrite <- (app_nil_r x) at 1.
  rewrite scan_copies_prefix; [| done |].
  - rewrite hits_app. cbn [scan]. unfold at_pos.
    pose proof (H (length x) true false) as H0. rewrite drop_all in H0.
    rewrite H0. cbn [fst map]. rewrite app_nil_r.
    clear. induction x as [|c x IH]; [done | exact IH].
  - intros i b _. rewrite app_nil_r. apply H.
Qed.

Lemma trigger_free_drop x i : trigger_free x → trigger_free (drop i x).
Proof. apply Forall_drop. Qed.

Lemma trigger_free_notin x :
  trigger_free x → (ch "<" ∉ x) ∧ (ch "#" ∉ x) ∧ (ch "P" ∉ x).
Proof.
  intros H. repeat split; intros Hin;
    apply (proj1 (Forall_forall _ _) H) in Hin; tauto.
Qed.

(** A pattern that begins with a literal matches nothing in a text that
    lacks the first character of the literal. *)
Lemma match_at_Lit_first dotall b p r ma a s :
  head p = Some a → a ∉ s → match_at E dotall b (Seq (Lit p) r) ma s = None.
Proof.
  intros Hp Hs. unfold match_at. cbn [m]. rewrite m_Lit. cbn [rest].
  by rewrite (startswith_needs_head p a s Hp Hs).
Qed.

Lemma match_at_Chr_first dotall b a r ma s :
  a ∉ s → match_at E dotall b (Seq (Chr a) r) ma s = None.
Proof.
  intros Hs. unfold match_at. cbn [m]. unfold one. cbn [rest].
  destruct s as [|c s]; [done |]. apply not_elem_of_cons in Hs as [Hne _].
  by apply N.eqb_neq in Hne as ->.
Qed.

(** A pattern in which a character must follow what [r1] matches finds
    nothing in a text that lacks the character. *)
Lemma match_at_Chr_second dotall b r1 a r2 ma s :
  a ∉ s → match_at E dotall b (Seq r1 (Seq (Chr a) r2)) ma s = None.
Proof.
  intros Hs. unfold match_at. cbn [m].
  destruct (m E dotall b r1 _ _) as [res|] eqn:Hm; [| done].
  apply m_extends in Hm as (st' & (consumed & Hc & _) & Hm). cbn [rest] in Hc.
  unfold one in Hm. destruct (rest st') as [|c s'] eqn:Hr; [done |].
  destruct (N.eqb a c) eqn:Hac; [| done]. apply N.eqb_eq in Hac as <-.
  exfalso. apply Hs. rewrite Hc. apply elem_of_app. right.
  apply list_elem_of_here.
Qed.

(** On a text without [<], [#] and [P], no rule of [clean] has a match. *)
Lemma rules_need_triggers x :
  trigger_free x → Forall (fun r => finditer E false r x = []) clean_rules.
Proof.
  intros Hx. unfold clean_rules.
  assert (Hd : ∀ i, (ch "<" ∉ drop i x) ∧ (ch "#" ∉ drop i x) ∧ (ch "P" ∉ drop i x)).
  { intros i. by apply trigger_free_notin, trigger_free_drop. }
  repeat constructor; (apply finditer_nowhere; [reflexivity |]); intros i b ma;
    destruct (Hd i) as (Hlt & Hhash & HP).
  - by apply match_at_Chr_first.
  - unfold match_at, rx_nopage. cbn [m Cat]. rewrite m_Lit. cbn [rest].
    by rewrite (startswith_needs_head (u "PageV") (ch "P") _ eq_refl HP).
  - by apply match_at_Chr_second.
  - unfold rx_hashpage, match_at. rewrite m_Lit. cbn [rest].
    by rewrite (startswith_needs_head (u "# Page") (ch "#") _ eq_refl Hhash).
  - by apply (match_at_Lit_first _ _ _ _ _ (ch "#")).
  - by apply (match_at_Lit_first _ _ _ _ _ (ch "#")).
  - by apply (match_at_Lit_first _ _ _ _ _ (ch "#")).
Qed.

Lemma lstrip_trigger_free x : trigger_free x → trigger_free (lstrip E x).
Proof.
  induction 1 as [|c x Hc Hx IH]; simpl; [constructor |].
  destruct (isspace E c); [done | by constructor].
Qed.

Lemma strip_trigger_free x : trigger_free x → trigger_free (strip E x).
Proof.
  intros H. unfold strip. apply Forall_rev, lstrip_trigger_free, Forall_rev.
  by apply lstrip_trigger_free.
Qed.

(** On such a text [clean] only strips, and a second cleaning changes
    nothing. *)
Lemma clean_trigger_free x : trigger_free x → clean E x = strip E x.
Proof.
  intros Hx. pose proof (rules_need_triggers x Hx) as H. unfold clean_rules in H.
  apply Forall_cons in H as [H1 H]. apply Forall_cons in H as [H2 H].
  apply Forall_cons in H as [H3 H]. apply Forall_cons in H as [H4 H].
  apply Forall_cons in H as [H5 H]. apply Forall_cons in H as [H6 H].
  apply Forall_cons in H as [H7 _].
  unfold clean, remove_html_tags, remove_no_page_number, remove_empty_paragraphs,
    remove_hash_before_page, remove_empty_sharh_pages, tag_subheadings,
    remove_hashiya_tags.
  rewrite (re_sub_nomatch E false rx_tag _ x H1).
  rewrite (re_sub_nomatch E false rx_nopage _ x H2).
  rewrite (re_sub_nomatch E false rx_emptypar _ x H3).
  rewrite (re_sub_nomatch E false rx_hashpage _ x H4).
  rewrite (re_sub_nomatch E false rx_emptysharh _ x H5).
  rewrite (re_sub_nomatch E false rx_subhead _ x H6).
  by rewrite (re_sub_nomatch E false rx_hashiya _ x H7).
Qed.

Lemma clean_twice_trigger_free x :
  trigger_free x → clean E (clean E x) = clean E x.
Proof.
  intros Hx. rewrite (clean_trigger_free x Hx).
  rewrite (clean_trigger_free (strip E x) (strip_trigger_free x Hx)).
  apply strip_strip.
Qed.
End TriggerFacts.

(** * Further properties of the script *)

(** ** Replacing a literal *)

Section ReplaceFacts.
Variable E : Env.
Variable dotall : bool.

(** [re.sub] with a literal pattern and a literal replacement is
    [str.replace]. *)
Lemma sub_Lit_replace a p new :
  ∀ s bos skip,
    flat_map (fun x => match x with Gap c => [c] | Hit h => expand [TLit new] h end)
             (scan E dotall (Lit (a :: p)) bos s skip)
    = replace_from (a :: p) new s skip.
Proof.
  induction s as [|c s IH]; intros bos skip.
  - destruct skip as [|n]; cbn [scan replace_from]; [| done].
    by rewrite at_pos_Lit.
  - destruct skip as [|n]; [| apply IH].
    cbn [scan replace_from]. rewrite at_pos_Lit, flat_map_app.
    destruct (startswith (a :: p) (c :: s)).
    + cbn [fst snd map flat_map length]. rewrite IH. unfold expand.
      cbn [flat_map]. rewrite !app_nil_r.
      by replace (S (length p) - 1) with (length p) by lia.
    + cbn [fst snd map flat_map app]. by rewrite IH.
Qed.

Lemma re_sub_Lit old new s :
  old ≠ [] → re_sub E dotall (Lit old) [TLit new] s = str_replace old new s.
Proof.
  intros Ho. destruct old as [|a p]; [done |]. unfold re_sub, str_replace.
  apply sub_Lit_replace.
Qed.

(** With one group around the whole pattern, the pieces of [re.split]
    joined give back the text. *)
Lemma pieces_join ts :
  Forall (fun h => groups h = [Some (whole h)]) (hits ts) →
  concat (map (default []) (pieces ts)) = token_text ts.
Proof.
  induction ts as [|[c|h] ts IH]; cbn [pieces hits flat_map app]; intros H.
  - done.
  - destruct (pieces_cons ts) as (seg & more & Hp). rewrite Hp in *.
    specialize (IH H). cbn [map default concat app] in *.
    change (token_text (Gap c :: ts)) with (c :: token_text ts).
    by rewrite <- IH.
  - apply Forall_cons in H as [Hh H]. rewrite Hh.
    cbn [map default concat app]. rewrite (IH H).
    change (token_text (Hit h :: ts)) with (whole h ++ token_text ts). done.
Qed.
End ReplaceFacts.

(** X16: the rule of line 29 replaces ["# Page"] by ["Page"] as
    [str.replace] would, from left to right and in one pass. *)
Theorem hash_before_page_is_replace (E : Env) (t : str) :
  remove_hash_before_page E t = str_replace (u "# Page") (u "Page") t.
Proof. unfold remove_hash_before_page, rx_hashpage. by apply re_sub_Lit. Qed.

(** X1: line 66 cuts the body, freed of its milestones, into [2P+1] string
    segments for [P] page markers, and the segments joined give that body
    back: nothing of the text is outside the segments. *)
Theorem pages_join_to_body (E : Env) (body : str) :
  concat (map (default []) (split_into_pages E body)) = remove_milestones E body ∧
  length (split_into_pages E body) = 2 * length (page_markers E body) + 1 ∧
  Forall is_Some (split_into_pages E body).
Proof.
  split; [| split; [apply pages_length | apply pages_Some]].
  unfold split_into_pages, re_split. rewrite pieces_join.
  - apply scan_text.
  - apply page_hits.
Qed.

(** X2: the loop only appends.  When it returns, the dictionary has the same
    keys and file names in the same order, every list of fragments is the
    old one followed by new fragments, and all descriptors received the same
    number of them: one per segment that does not start with ["Page"], at
    most [2P+1]. *)
Theorem split_pages_appends (E : Env) (body : str) (td td' : texts) :
  split_pages E body td = inr td' →
  length (content_indices (split_into_pages E body))
    ≤ 2 * length (page_markers E body) + 1 ∧
  Forall2
    (fun kd kd' =>
       kd'.1 = kd.1 ∧ fn kd'.2 = fn kd.2 ∧
       ∃ fs, text kd'.2 = text kd.2 ++ fs ∧
             length fs = length (content_indices (split_into_pages E body)))
    td td'.
Proof.
  intros H. split.
  - rewrite <- pages_length. unfold content_indices.
    etransitivity; [apply length_filter |]. by rewrite length_seq.
  - apply split_pages_collected in H. eapply Forall2_impl; [exact H |].
    intros kd kd' (Hk & Hn & fs & Ht & Hfs). split; [done |]. split; [done |].
    exists fs. split; [done |]. symmetry. by eapply Forall2_length.
Qed.

Lemma split_pages_appends_witness :
  ∃ td',
    split_pages py scenario_body [(u "a", Descr (u "BK1") [u "old"])] = inr td' ∧
    length (content_indices (split_into_pages py scenario_body))
      ≤ 2 * length (page_markers py scenario_body) + 1 ∧
    Forall2
      (fun kd kd' =>
         kd'.1 = kd.1 ∧ fn kd'.2 = fn kd.2 ∧
         ∃ fs, text kd'.2 = text kd.2 ++ fs ∧
               length fs = length (content_indices (split_into_pages py scenario_body)))
      [(u "a", Descr (u "BK1") [u "old"])] td'.
Proof.
  destruct (split_pages py scenario_body [(u "a", Descr (u "BK1") [u "old"])])
    as [e|td'] eqn:H.
  - vm_compute in H. discriminate H.
  - exists td'. split; [reflexivity |].
    exact (split_pages_appends py scenario_body _ td' H).
Defined.

(** ** Failures before anything is written *)

Section FailureFacts.
Variable E : Env.

Lemma append_page_inl page pn :
  ∀ td e, append_page E page pn td = inl e → e = TypeError.
Proof.
  induction td as [|[k d] td IH]; intros e; cbn [append_page]; [done |].
  unfold add. destruct (extract E k page) as [s|l].
  - destruct pn as [p|]; [| by intros [= <-]].
    destruct (append_page E page (Some p) td) as [e'|td1]; [| done].
    intros [= <-]. by apply IH.
  - by intros [= <-].
Qed.

(** The loop raises nothing but [TypeError] on segments that are strings. *)
Lemma split_loop_inl pages :
  ∀ todo i td e,
    Forall is_Some todo → split_loop E pages i todo td = inl e → e = TypeError.
Proof.
  induction todo as [|[page|] todo IH]; intros i td e Hall; cbn [split_loop].
  - done.
  - apply Forall_cons in Hall as [_ Hall].
    destruct (startswith (u "Page") page); [by apply IH |].
    destruct (append_page E page (page_number pages i) td) as [e'|td1] eqn:Ha.
    + intros [= <-]. by eapply append_page_inl.
    + by apply IH.
  - apply Forall_cons in Hall as [[x Hx] _]. done.
Qed.

Lemma content_index pages j (page : str) :
  pages !! j = Some (Some page) → startswith (u "Page") page = false →
  j ∈ content_indices pages.
Proof.
  intros Hj Hp. unfold content_indices. apply list_elem_of_filter. split.
  - rewrite (is_content_Some _ _ _ Hj), Hp. done.
  - apply elem_of_seq. apply lookup_lt_Some in Hj. lia.
Qed.

(** A key that yields a tuple on a content segment stops the loop. *)
Lemma tuple_stops_loop body (td : texts) k d j (page : str) l :
  (k, d) ∈ td →
  split_into_pages E body !! j = Some (Some page) →
  startswith (u "Page") page = false →
  extract E k page = ITuple l →
  split_pages E body td = inl TypeError.
Proof.
  intros Hk Hj Hp Hx.
  destruct (split_pages E body td) as [e|td'] eqn:Hs.
  - f_equal. unfold split_pages in Hs. eapply split_loop_inl; [| exact Hs].
    apply pages_Some.
  - exfalso. apply split_pages_collected in Hs.
    apply list_elem_of_lookup in Hk as [i Hi].
    destruct (Forall2_lookup_l _ _ _ _ _ Hs Hi) as (kd' & _ & _ & _ & fs & _ & Hfs).
    pose proof (content_index _ _ _ Hj Hp) as Hc.
    apply list_elem_of_lookup in Hc as [n Hn].
    destruct (Forall2_lookup_l _ _ _ _ _ Hfs Hn) as (f & _ & page' & Hj' & Hf).
    rewrite Hj in Hj'. injection Hj' as <-. cbn [fst] in Hf.
    unfold fragment in Hf. rewrite Hx in Hf. done.
Qed.
End FailureFacts.

(** X3: a key with two or more groups cannot be used.  When such a key
    finds a match on a segment that does not start with ["Page"], line 79
    adds a tuple to a string: the call raises [TypeError], and since the
    files are written after the loop, none has been written. *)
Theorem tuple_key_raises (E : Env) (fp outfolder : str) (td : texts)
    (clean_text : option (str → str)) (w : world) (t header body : str)
    (k : str) (d : descr) (j : nat) (page : str) (l : list str) :
  files w !! fp = Some t →
  split_header E t = inr (header, body) →
  (k, d) ∈ td →
  split_into_pages E body !! j = Some (Some page) →
  startswith (u "Page") page = false →
  extract E k page = ITuple l →
  split_multitext E fp outfolder td clean_text w = Raise TypeError w.
Proof.
  intros Hf Hh Hk Hj Hp Hx.
  unfold split_multitext, split_and_write, bind at 1. unfold bind at 1.
  unfold read_file at 1. rewrite Hf. unfold bind at 1. rewrite Hh. cbn [lift ret snd].
  unfold bind at 1.
  by rewrite (tuple_stops_loop E body td k d j page l Hk Hj Hp Hx).
Qed.

Lemma tuple_key_raises_witness :
  split_multitext
    (py_with (fun _ => Some (Seq (Grp 1 (Chr (ch "t"))) (Grp 2 (Chr (ch "e"))))))
    (u "src") (u "out") [(u "(t)(e)", Descr (u "BK1") [])] None
    (World {[ u "src" := u "#META#Header#End#text PageV01P001" ]} (fun _ => true) [])
  = Raise TypeError
      (World {[ u "src" := u "#META#Header#End#text PageV01P001" ]} (fun _ => true) []).
Proof.
  apply (tuple_key_raises _ (u "src") (u "out") _ None _
           (u "#META#Header#End#text PageV01P001") [] (u "text PageV01P001")
           (u "(t)(e)") (Descr (u "BK1") []) 0 (u "text ") [u "t"; u "e"]).
  - vm_compute. reflexivity.
  - vm_compute. reflexivity.
  - apply list_elem_of_here.
  - vm_compute. reflexivity.
  - vm_compute. reflexivity.
  - vm_compute. reflexivity.
Defined.

(** X4: without the sidecar [fp + ".yml"] the call raises and leaves every
    file as it was, whatever the document and the keys: the sidecar is read
    (line 83) before the first file is written (line 88). *)
Theorem missing_sidecar_writes_nothing (E : Env) (fp outfolder : str)
    (td : texts) (clean_text : option (str → str)) (w : world) :
  files w !! (fp ++ u ".yml") = None →
  ∃ e, split_multitext E fp outfolder td clean_text w = Raise e w.
Proof.
  intros Hy. unfold split_multitext, split_and_write, bind at 1. unfold bind at 1.
  unfold read_file at 1. destruct (files w !! fp) as [t|]; [| by eexists].
  unfold bind at 1. destruct (split_header E t) as [e|[h b]]; [by eexists |].
  cbn [lift ret snd]. unfold bind at 1.
  destruct (split_pages E b td) as [e|td1]; [by eexists |].
  cbn [lift ret]. unfold bind at 1. unfold read_file at 1. rewrite Hy. by eexists.
Qed.

Lemma missing_sidecar_writes_nothing_witness :
  ∃ e, split_multitext py (u "src") (u "out") scenario_texts (Some (clean py))
         (World {[ u "src" := scenario_doc ]} (fun _ => true) [])
       = Raise e (World {[ u "src" := scenario_doc ]} (fun _ => true) []).
Proof.
  apply (missing_sidecar_writes_nothing py (u "src") (u "out") scenario_texts
           (Some (clean py)) (World {[ u "src" := scenario_doc ]} (fun _ => true) [])).
  vm_compute. reflexivity.
Defined.

Lemma Forall2_with_Forall {A B} (P : A → Prop) (R : A → B → Prop) l l' :
  Forall P l → Forall2 R l l' → Forall2 (fun x y => P x ∧ R x y) l l'.
Proof.
  intros HP HR. revert HP. induction HR as [|x y l l' Hxy _ IH]; intros HP;
    [constructor |].
  apply Forall_cons in HP as [Hx HP]. constructor; [done | by apply IH].
Qed.

(** X5: a key that [re] cannot compile is as good as a key that finds
    nothing (the [except] of line 77 takes the error).  If no key compiles,
    the loop returns and every new fragment is just the segment that
    follows, or the sentinel. *)
Theorem uncompilable_keys_give_markers (E : Env) (body : str) (td : texts) :
  Forall (fun kd => re_compile E kd.1 = None) td →
  ∃ td',
    split_pages E body td = inr td' ∧
    Forall2
      (fun kd kd' =>
         ∃ fs, text kd'.2 = text kd.2 ++ fs ∧
               Forall2 (fun j f => page_number (split_into_pages E body) j = Some f)
                       (content_indices (split_into_pages E body)) fs)
      td td'.
Proof.
  intros Hnone.
  assert (Hx : ∀ k page, k ∈ map fst td → extract E k page = IStr []).
  { intros k page Hk. apply list_elem_of_fmap in Hk as ([k' d] & -> & Hk).
    apply (proj1 (Forall_forall _ _) Hnone) in Hk. unfold extract.
    cbn [fst] in *. by rewrite Hk. }
  destruct (split_loop_total E (split_into_pages E body)
              (split_into_pages E body) 0 td) as [td' Hs].
  - done.
  - apply pages_Some.
  - intros j page k Hj Hc Hk. unfold fragment. rewrite (Hx k page Hk).
    unfold page_number. destruct (split_into_pages E body !! S j) as [[p|]|] eqn:Hn.
    + by eexists.
    + pose proof (pages_Some E body) as Hall.
      destruct (proj1 (Forall_lookup _ _) Hall (S j) None Hn) as [? ?]. done.
    + by eexists.
  - exists td'. split; [exact Hs |]. apply split_loop_collected in Hs.
    eapply Forall2_impl; [exact (Forall2_with_Forall _ _ _ _ Hnone Hs) |].
    intros kd kd' (Hcomp & _ & _ & fs & Ht & Hfs). exists fs. split; [done |].
    eapply Forall2_impl; [exact Hfs |].
    intros j f (page & Hj & Hf). unfold fragment, extract in Hf.
    rewrite Hcomp in Hf. unfold add in Hf.
    destruct (page_number (split_into_pages E body) j); [| done].
    by injection Hf as <-.
Qed.

Lemma uncompilable_keys_give_markers_witness :
  ∃ td',
    split_pages py (u "text PageV01P001") [(u "(", Descr (u "BK1") [])] = inr td' ∧
    Forall2
      (fun kd kd' =>
         ∃ fs, text kd'.2 = text kd.2 ++ fs ∧
               Forall2 (fun j f => page_number (split_into_pages py (u "text PageV01P001")) j
                                   = Some f)
                       (content_indices (split_into_pages py (u "text PageV01P001"))) fs)
      [(u "(", Descr (u "BK1") [])] td'.
Proof.
  apply (uncompilable_keys_give_markers py (u "text PageV01P001")
           [(u "(", Descr (u "BK1") [])]).
  repeat constructor.
Defined.

(** ** What a run that returns has done *)

Section RunFacts.
Variable E : Env.

(** The steps of lines 58 to 98 when they all succeed. *)
Lemma split_and_write_Ok fp outfolder td td' w w1 :
  split_and_write E fp outfolder td w = Ok td' w1 →
  ∃ t h b yml w5,
    files w !! fp = Some t ∧
    split_header E t = inr (h, b) ∧
    split_pages E b td = inr td' ∧
    files w !! (fp ++ u ".yml") = Some yml ∧
    for_each (map snd td')
      (write_descr E outfolder (h ++ u "#META#Header#End#\n\n") (basename E fp) yml) w
    = Ok tt w5 ∧
    report E fp outfolder (map snd td') w5 = Ok tt w1.
Proof.
  unfold split_and_write. intros H.
  apply bind_Ok in H as (t & w2 & H1 & H). apply read_file_Ok in H1 as [H1 ->].
  apply bind_Ok in H as ([h b] & w2 & H2 & H). apply lift_Ok in H2 as [H2 ->].
  apply bind_Ok in H as (td2 & w3 & H3 & H). apply lift_Ok in H3 as [H3 ->].
  apply bind_Ok in H as (yml & w4 & H4 & H). apply read_file_Ok in H4 as [H4 ->].
  apply bind_Ok in H as ([] & w5 & H5 & H).
  apply bind_Ok in H as ([] & w6 & H6 & H). injection H as -> <-.
  cbn [fst snd] in *. by exists t, h, b, yml, w5.
Qed.

Lemma split_multitext_Ok fp outfolder td clean_text td' w w' :
  split_multitext E fp outfolder td clean_text w = Ok td' w' →
  ∃ w1, split_and_write E fp outfolder td w = Ok td' w1 ∧
        match clean_text with
        | Some f => for_each (map snd td') (clean_descr outfolder f) w1 = Ok tt w'
        | None => w' = w1
        end.
Proof.
  unfold split_multitext. intros H.
  apply bind_Ok in H as (td1 & w1 & Hw & H).
  apply bind_Ok in H as ([] & w8 & H8 & H). injection H as -> <-.
  exists w1. split; [done |]. destruct clean_text; [done |]. by injection H8 as <-.
Qed.

Lemma clean_descr_Ok outfolder f d w x w' :
  clean_descr outfolder f d w = Ok x w' →
  ∃ t, files w !! path_join outfolder (fn d) = Some t ∧
       files w' = <[path_join outfolder (fn d) := f t]>
                    (<[path_join outfolder (fn d) := []]> (files w)).
Proof.
  unfold clean_descr. intros H.
  apply bind_Ok in H as (t & w1 & H1 & H). apply read_file_Ok in H1 as [H1 ->].
  apply bind_Ok in H as (? & w2 & H2 & H). apply open_w_Ok in H2.
  apply write_Ok in H. exists t. split; [done |]. by rewrite H, H2.
Qed.

(** Cleaning leaves the paths of other files alone. *)
Lemma clean_all_frame outfolder f ds :
  ∀ w x w' p,
    for_each ds (clean_descr outfolder f) w = Ok x w' →
    p ∉ map (fun d => path_join outfolder (fn d)) ds →
    files w' !! p = files w !! p.
Proof.
  induction ds as [|d ds IH]; intros w x w' p H Hp.
  - simpl in H. by injection H as _ <-.
  - apply for_each_cons_Ok in H as (y & w1 & Hd & H).
    apply clean_descr_Ok in Hd as (t & _ & Hd).
    cbn [map] in Hp. apply not_elem_of_cons in Hp as [Hp1 Hp].
    rewrite (IH _ _ _ _ H Hp), Hd. by rewrite !lookup_insert_ne.
Qed.

End RunFacts.

Section OutputFacts.
Variable E : Env.

Lemma open_w_world p w x w' :
  open_w p w = Ok x w' →
  writable w p = true ∧ w' = World (<[p := []]> (files w)) (writable w) (stdout w).
Proof. unfold open_w. destruct (writable w p); [| done]. by intros [= _ <-]. Qed.

Lemma write_world p t w x w' :
  write p t w = Ok x w' → w' = World (<[p := t]> (files w)) (writable w) (stdout w).
Proof. unfold write. by intros [= _ <-]. Qed.

(** One descriptor: both paths were writable, the sidecar written is what
    line 92 computes, and nothing is printed. *)
Lemma write_descr_world outfolder header uri yml_str d w x w' :
  write_descr E outfolder header uri yml_str d w = Ok x w' →
  writable w (path_join outfolder (fn d)) = true ∧
  writable w (path_join outfolder (fn d) ++ u ".yml") = true ∧
  writable w' = writable w ∧ stdout w' = stdout w ∧
  ∃ y, rename_in_yml E uri (fn d) yml_str = inr y ∧
       files w' =
       <[path_join outfolder (fn d) ++ u ".yml" := y]>
         (<[path_join outfolder (fn d) ++ u ".yml" := []]>
            (<[path_join outfolder (fn d) := header ++ concat (text d)]>
               (<[path_join outfolder (fn d) := []]> (files w)))).
Proof.
  unfold write_descr. intros H.
  apply bind_Ok in H as (? & w1 & H1 & H). apply open_w_world in H1 as [Hw1 ->].
  apply bind_Ok in H as (? & w2 & H2 & H). apply write_world in H2 as ->.
  apply bind_Ok in H as (? & w3 & H3 & H). apply open_w_world in H3 as [Hw3 ->].
  apply bind_Ok in H as (y & w4 & H4 & H). apply lift_Ok in H4 as [H4 ->].
  apply write_world in H as ->. cbn [files writable stdout] in *.
  repeat (split; [done |]). by exists y.
Qed.

Lemma write_all_world outfolder header uri yml_str ds :
  ∀ w x w',
    for_each ds (write_descr E outfolder header uri yml_str) w = Ok x w' →
    writable w' = writable w ∧ stdout w' = stdout w ∧
    Forall (fun p => writable w p = true) (name_paths outfolder (map fn ds)).
Proof.
  induction ds as [|d ds IH]; intros w x w' H.
  - simpl in H. injection H as _ <-. by repeat split.
  - apply for_each_cons_Ok in H as (y & w1 & Hd & H).
    apply write_descr_world in Hd as (Hw1 & Hw2 & Hw & Hs & _).
    apply IH in H as (Hw' & Hs' & Hall). rewrite Hw in Hw', Hall.
    rewrite Hs in Hs'. split; [done |]. split; [done |].
    cbn [map name_paths flat_map app]. by repeat constructor.
Qed.

(** With distinct paths, each sidecar holds what line 92 computes. *)
Lemma write_all_sidecars outfolder header uri yml_str ds :
  ∀ w x w',
    for_each ds (write_descr E outfolder header uri yml_str) w = Ok x w' →
    NoDup (name_paths outfolder (map fn ds)) →
    Forall (fun d => ∃ y, rename_in_yml E uri (fn d) yml_str = inr y ∧
                          files w' !! (path_join outfolder (fn d) ++ u ".yml") = Some y)
           ds.
Proof.
  induction ds as [|d ds IH]; intros w x w' H Hnd; [constructor |].
  apply for_each_cons_Ok in H as (y0 & w1 & Hd & H).
  apply write_descr_world in Hd as (_ & _ & _ & _ & y & Hy & Hd).
  cbn [map name_paths flat_map app] in Hnd.
  apply NoDup_cons in Hnd as [Hn1 Hnd]. apply NoDup_cons in Hnd as [Hn2 Hnd].
  constructor; [| by eapply IH]. exists y. split; [done |].
  rewrite (write_all_frame _ _ _ _ _ _ _ _ _ _ H Hn2), Hd. by rewrite lookup_insert_eq.
Qed.

Lemma text_path_in_name_paths outfolder names n :
  n ∈ names → path_join outfolder n ∈ name_paths outfolder names.
Proof.
  induction names as [|a names IH]; intros Hn; [by apply elem_of_nil in Hn |].
  cbn [name_paths flat_map app]. apply elem_of_cons in Hn as [-> | Hn].
  - apply list_elem_of_here.
  - do 2 apply list_elem_of_further. by apply IH.
Qed.




(** Reading the counts of files that are there. *)
Lemma count_all_values outfolder (c : descr → str) ds w :
  Forall (fun d => files w !! path_join outfolder (fn d) = Some (c d)) ds →
  count_all E outfolder ds w = Ok (map (fun d => ar_cnt E (c d)) ds) w.
Proof.
  induction 1 as [|d ds Hd _ IH]; [done |].
  cbn [count_all map]. unfold bind at 1. unfold ar_cnt_file, bind at 1.
  unfold read_file. rewrite Hd. cbn [ret]. unfold bind at 1. by rewrite IH.
Qed.
End OutputFacts.

(** X6: a call that returns has changed no file but those at its output
    paths, with or without cleaning; the source and its sidecar are as they
    were unless they are output paths themselves. *)
Theorem only_output_paths_change (E : Env) (fp outfolder : str) (td td' : texts)
    (clean_text : option (str → str)) (w w' : world) (p : str) :
  split_multitext E fp outfolder td clean_text w = Ok td' w' →
  p ∉ output_paths outfolder td →
  files w' !! p = files w !! p.
Proof.
  intros H Hp. apply split_multitext_Ok in H as (w1 & Hw & Hc).
  apply split_and_write_Ok in Hw as (t & h & b & yml & w5 & _ & _ & Hs & _ & H5 & H6).
  apply report_Ok in H6. unfold output_paths in Hp.
  rewrite <- (split_pages_names E _ _ _ Hs), <- (map_map snd fn) in Hp.
  assert (Hw1 : files w1 !! p = files w !! p).
  { rewrite H6. by eapply write_all_frame. }
  destruct clean_text as [f|]; [| by subst].
  rewrite <- Hw1. eapply clean_all_frame; [exact Hc |].
  intros Hin. apply Hp. apply list_elem_of_fmap in Hin as (d & -> & Hd).
  apply text_path_in_name_paths. by apply (list_elem_of_fmap_2 fn).
Qed.

Lemma only_output_paths_change_witness :
  ∃ td' w',
    split_multitext py (u "src") (u "out") scenario_texts (Some (clean py))
      scenario_world = Ok td' w' ∧
    files w' !! u "src" = files scenario_world !! u "src".
Proof.
  destruct (split_multitext py (u "src") (u "out") scenario_texts (Some (clean py))
              scenario_world) as [td' w'|e w'] eqn:H.
  - exists td', w'. split; [reflexivity |].
    apply (only_output_paths_change py (u "src") (u "out") scenario_texts td'
             (Some (clean py)) scenario_world w' (u "src") H).
    apply (bool_decide_unpack _). vm_compute. exact I.
  - vm_compute in H. discriminate H.
Defined.



(** X8: when the base name of [fp] compiles to itself (no character of it
    is special to [re]) and every file name is a plain template, each
    sidecar written is the source sidecar with the base name replaced by
    the descriptor's file name, as [str.replace] would. *)
Theorem sidecar_is_replace (E : Env) (fp outfolder : str) (td td' : texts)
    (w w1 : world) (yml : str) :
  split_and_write E fp outfolder td w = Ok td' w1 →
  NoDup (output_paths outfolder td) →
  files w !! (fp ++ u ".yml") = Some yml →
  basename E fp ≠ [] →
  re_compile E (basename E fp) = Some (Lit (basename E fp)) →
  Forall (fun kd => re_template E (fn kd.2) = Some [TLit (fn kd.2)]) td →
  Forall (fun kd => files w1 !! (path_join outfolder (fn kd.2) ++ u ".yml")
                    = Some (str_replace (basename E fp) (fn kd.2) yml))
         td'.
Proof.
  intros H Hnd Hy Hne Hc Ht.
  apply split_and_write_Ok in H as (t & h & b & yml' & w5 & _ & _ & Hs & Hy' & H5 & H6).
  rewrite Hy in Hy'. injection Hy' as <-. apply report_Ok in H6.
  unfold output_paths in Hnd.
  rewrite <- (split_pages_names E _ _ _ Hs), <- (map_map snd fn) in Hnd.
  assert (Ht' : Forall (fun kd => re_template E (fn kd.2) = Some [TLit (fn kd.2)]) td').
  { rewrite <- (Forall_map (fun kd => fn kd.2)
                  (fun n => re_template E n = Some [TLit n])) in Ht |- *.
    by rewrite (split_pages_names E _ _ _ Hs). }
  pose proof (write_all_sidecars E _ _ _ _ _ _ _ _ H5 Hnd) as Hl.
  rewrite Forall_map in Hl.
  apply Forall_forall. intros kd Hin.
  destruct (proj1 (Forall_forall _ _) Hl kd Hin) as (y & Hr & Hf).
  pose proof (proj1 (Forall_forall _ _) Ht' kd Hin) as Hk. cbn [snd] in *.
  unfold rename_in_yml in Hr. rewrite Hc, Hk in Hr. injection Hr as <-.
  rewrite H6, Hf. by rewrite re_sub_Lit.
Qed.

Lemma sidecar_is_replace_witness :
  ∃ td' w1,
    split_and_write py (u "src") (u "out") scenario_texts scenario_world = Ok td' w1 ∧
    Forall (fun kd => files w1 !! (path_join (u "out") (fn kd.2) ++ u ".yml")
                      = Some (str_replace (basename py (u "src")) (fn kd.2) (u "uri: src")))
           td'.
Proof.
  destruct (split_and_write py (u "src") (u "out") scenario_texts scenario_world)
    as [td' w1|e w1] eqn:H.
  - exists td', w1. split; [reflexivity |].
    apply (sidecar_is_replace py (u "src") (u "out") scenario_texts td'
             scenario_world w1 (u "uri: src") H).
    + apply (bool_decide_unpack _). vm_compute. exact I.
    + vm_compute. reflexivity.
    + vm_compute. discriminate.
    + vm_compute. reflexivity.
    + repeat constructor.
  - vm_compute in H. discriminate H.
Defined.

(** X9: the report of lines 94 to 98.  A run through line 98 prints three
    lines and nothing else: the count of the source text, then the sum of
    the counts of the texts written, one per descriptor, then the note.
    The output paths are taken to be distinct and other than [fp]. *)
Theorem report_counts_what_was_written (E : Env) (fp outfolder : str)
    (td td' : texts) (w w1 : world) (t : str) :
  split_and_write E fp outfolder td w = Ok td' w1 →
  files w !! fp = Some t →
  NoDup (output_paths outfolder td) →
  fp ∉ output_paths outfolder td →
  ∃ header body : str,
    split_header E t = inr (header, body) ∧
    stdout w1 =
    stdout w ++
    [("original Arabic character count:"%string, Some (ar_cnt E t));
     ("sum of the Arabic character count in export files:"%string,
      Some (foldr Z.add 0%Z
              (map (fun kd => ar_cnt E (header ++ header_end ++ u "\n\n"
                                         ++ concat (text kd.2))) td')));
     ("NB: if Arabic character count does not agree, something went wrong!"%string,
      None)].
Proof.
  intros H Hf Hnd Hfp.
  apply split_and_write_Ok in H as (t' & h & b & yml & w5 & Hf' & Hh & Hs & _ & H5 & H6).
  rewrite Hf in Hf'. injection Hf' as <-. exists h, b. split; [exact Hh |].
  unfold output_paths in Hnd, Hfp.
  rewrite <- (split_pages_names E _ _ _ Hs), <- (map_map snd fn) in Hnd, Hfp.
  pose proof (write_all_lookup E _ _ _ _ _ _ _ _ H5 Hnd) as Hl.
  pose proof (write_all_frame E _ _ _ _ _ _ _ _ _ H5 Hfp) as Hsrc.
  apply write_all_world in H5 as (_ & Hout & _).
  rewrite Hf in Hsrc.
  unfold report in H6. unfold bind at 1 in H6. unfold ar_cnt_file, bind at 1 in H6.
  unfold read_file at 1 in H6. rewrite Hsrc in H6. cbn [ret] in H6.
  unfold bind at 1 in H6. unfold print at 1 in H6. unfold bind at 1 in H6.
  rewrite (count_all_values E outfolder
             (fun d => (h ++ u "#META#Header#End#\n\n") ++ concat (text d))) in H6.
  - unfold bind at 1 in H6. unfold print in H6. injection H6 as <-.
    cbn [stdout]. rewrite Hout, <- !app_assoc. cbn [app]. do 4 f_equal.
    rewrite map_map. apply (f_equal (fun l => Some (foldr Z.add 0%Z l))).
    apply map_ext. intros kd. cbn [snd]. f_equal.
    assert (Hh' : u "#META#Header#End#\n\n" = header_end ++ u "\n\n")
      by (vm_compute; reflexivity).
    rewrite Hh'. by rewrite <- !app_assoc.
  - exact Hl.
Qed.

Lemma report_counts_what_was_written_witness :
  ∃ td' w1 (header body : str),
    split_and_write py (u "src") (u "out") scenario_texts scenario_world = Ok td' w1 ∧
    split_header py scenario_doc = inr (header, body) ∧
    stdout w1 =
    stdout scenario_world ++
    [("original Arabic character count:"%string, Some (ar_cnt py scenario_doc));
     ("sum of the Arabic character count in export files:"%string,
      Some (foldr Z.add 0%Z
              (map (fun kd => ar_cnt py (header ++ header_end ++ u "\n\n"
                                          ++ concat (text kd.2))) td')));
     ("NB: if Arabic character count does not agree, something went wrong!"%string,
      None)].
Proof.
  destruct (split_and_write py (u "src") (u "out") scenario_texts scenario_world)
    as [td' w1|e w1] eqn:H.
  - destruct (report_counts_what_was_written py (u "src") (u "out") scenario_texts td'
                scenario_world w1 scenario_doc H) as (header & body & Hres).
    + vm_compute. reflexivity.
    + apply (bool_decide_unpack _). vm_compute. exact I.
    + apply (bool_decide_unpack _). vm_compute. exact I.
    + exists td', w1, header, body. split; [reflexivity | exact Hres].
  - vm_compute in H. discriminate H.
Defined.

(** X10: a call returns only if every output path, text and sidecar, could
    be opened for writing. *)
Theorem returns_only_if_writable (E : Env) (fp outfolder : str) (td td' : texts)
    (clean_text : option (str → str)) (w w' : world) :
  split_multitext E fp outfolder td clean_text w = Ok td' w' →
  Forall (fun p => writable w p = true) (output_paths outfolder td).
Proof.
  intros H. apply split_multitext_Ok in H as (w1 & Hw & _).
  apply split_and_write_Ok in Hw as (t & h & b & yml & w5 & _ & _ & Hs & _ & H5 & _).
  apply write_all_world in H5 as (_ & _ & Hall). unfold output_paths.
  by rewrite <- (split_pages_names E _ _ _ Hs), <- (map_map snd fn).
Qed.

Lemma returns_only_if_writable_witness :
  ∃ td' w',
    split_multitext py (u "src") (u "out") scenario_texts None scenario_world
    = Ok td' w' ∧
    Forall (fun p => writable scenario_world p = true)
           (output_paths (u "out") scenario_texts).
Proof.
  destruct (split_multitext py (u "src") (u "out") scenario_texts None scenario_world)
    as [td' w'|e w'] eqn:H.
  - exists td', w'. split; [reflexivity |].
    exact (returns_only_if_writable py (u "src") (u "out") scenario_texts td' None
             scenario_world w' H).
  - vm_compute in H. discriminate H.
Defined.

(** ** Texts the patterns cannot touch *)

Section NoMatchFacts.
Variable E : Env.
Variable dotall : bool.

(** A pattern fails when its continuation fails on all that is ahead. *)
Lemma m_fails bos r st k :
  (∀ st', extends st st' → k st' = None) → m E dotall bos r st k = None.
Proof.
  intros Hk. destruct (m E dotall bos r st k) as [res|] eqn:H; [| done].
  apply m_extends in H as (st' & He & H). by rewrite (Hk st' He) in H.
Qed.

Lemma str_find_none p :
  ∀ s, str_find p s = None → ∀ i, startswith p (drop i s) = false.
Proof.
  induction s as [|c s IH]; cbn [str_find].
  - destruct (startswith p []) eqn:Hp; [done |]. intros _ i. by rewrite drop_nil.
  - destruct (startswith p (c :: s)) eqn:Hp; [done |].
    destruct (str_find p s) as [k|] eqn:Hk; [done |]. intros _ [|i]; [done |].
    by apply IH.
Qed.

Lemma m_Seq bos r1 r2 st k :
  m E dotall bos (Seq r1 r2) st k
  = m E dotall bos r1 st (fun st' => m E dotall bos r2 st' k).
Proof. reflexivity. Qed.

(** No milestone starts where ["ms"] does not occur further on. *)
Lemma match_at_ms_none bos ma s :
  (∀ i, startswith (u "ms") (drop i s) = false) →
  match_at E dotall bos rx_ms ma s = None.
Proof.
  intros Hs. unfold match_at, rx_ms. cbn [Cat]. rewrite m_Seq. apply m_fails.
  intros st' (x & Hx & _). cbn [rest] in Hx. rewrite m_Seq, m_Lit.
  specialize (Hs (length x)). rewrite Hx, drop_app_length in Hs. by rewrite Hs.
Qed.

(** With an empty replacement [re.sub] only takes characters away. *)
Lemma gaps_sublist ts :
  sublist (flat_map (fun x => match x with Gap c => [c] | Hit h => expand [] h end) ts)
          (token_text ts).
Proof.
  induction ts as [|[c|h] ts IH]; cbn [flat_map token_text app].
  - constructor.
  - change (token_text (Gap c :: ts)) with (c :: token_text ts).
    by apply sublist_skip.
  - change (token_text (Hit h :: ts)) with (whole h ++ token_text ts).
    by apply sublist_inserts_l.
Qed.

Lemma re_sub_empty_sublist r s : sublist (re_sub E dotall r [] s) s.
Proof.
  unfold re_sub. pose proof (gaps_sublist (scan E dotall r true s 0)) as H.
  by rewrite scan_text in H.
Qed.
End NoMatchFacts.

(** X11: line 64 leaves a body without ["ms"] as it is: a milestone needs
    these two letters, whatever the spaces and digits around. *)
Theorem milestones_need_ms (E : Env) (body : str) :
  str_find (u "ms") body = None → remove_milestones E body = body.
Proof.
  intros H. unfold remove_milestones. apply re_sub_nomatch, finditer_nowhere.
  - reflexivity.
  - intros i b ma. apply match_at_ms_none. intros j.
    rewrite drop_drop. by apply str_find_none.
Qed.

Lemma milestones_need_ms_witness :
  remove_milestones py (u "text 12 PageV01P001") = u "text 12 PageV01P001".
Proof.
  apply (milestones_need_ms py (u "text 12 PageV01P001")). vm_compute. reflexivity.
Defined.

(** X12: the three rules with an empty replacement (lines 24, 31 and 35)
    only take characters away: what each returns is the text with some
    characters left out, in the same order. *)
Theorem removing_rules_only_remove (E : Env) (t : str) :
  sublist (remove_html_tags E t) t ∧
  sublist (remove_empty_sharh_pages E t) t ∧
  sublist (remove_hashiya_tags E t) t.
Proof.
  unfold remove_html_tags, remove_empty_sharh_pages, remove_hashiya_tags.
  repeat split; apply re_sub_empty_sublist.
Qed.

(** ** The ends of a cleaned text *)

Section StripFacts.
Variable E : Env.

Lemma strip_head s c y : strip E s = c :: y → isspace E c = false.
Proof.
  unfold strip. destruct (lstrip E s) as [|a x] eqn:Ha; [done |].
  pose proof (lstrip_head E _ _ _ Ha) as Hc. cbn [rev].
  destruct (lstrip_snoc E (rev x) a Hc) as [z Hz]. rewrite Hz, rev_app_distr.
  cbn [rev app]. by intros [= <- _].
Qed.

Lemma strip_last s c : last (strip E s) = Some c → isspace E c = false.
Proof.
  unfold strip. destruct (lstrip E (rev (lstrip E s))) as [|a x] eqn:Ha; [done |].
  pose proof (lstrip_head E _ _ _ Ha) as Hc. cbn [rev]. rewrite last_snoc.
  by intros [= <-].
Qed.
End StripFacts.

(** X13: line 37: a cleaned text neither starts nor ends with white
    space. *)
Theorem clean_has_no_outer_space (E : Env) (t : str) (c : char) :
  head (clean E t) = Some c ∨ last (clean E t) = Some c → isspace E c = false.
Proof.
  unfold clean. intros [H | H].
  - destruct (strip E _) as [|a y] eqn:Hs; [done |]. injection H as ->.
    by apply strip_head in Hs.
  - by apply strip_last in H.
Qed.

Lemma clean_has_no_outer_space_witness :
  (head (clean py (u " <b>متن</b> \n")) = Some (ch "م")
   ∨ last (clean py (u " <b>متن</b> \n")) = Some (ch "م"))
  ∧ isspace py (ch "م") = false.
Proof.
  assert (H : head (clean py (u " <b>متن</b> \n")) = Some (ch "م")
              ∨ last (clean py (u " <b>متن</b> \n")) = Some (ch "م")).
  { left. vm_compute. reflexivity. }
  split; [exact H |].
  exact (clean_has_no_outer_space py (u " <b>متن</b> \n") (ch "م") H).
Defined.

(** X14: a text without [<], [#] and [P] gives none of the seven rules
    anything to do: cleaning it is stripping it, and cleaning the result
    again changes nothing. *)
Theorem clean_only_strips_plain_text (E : Env) (x : str) :
  trigger_free x →
  clean E x = strip E x ∧ clean E (clean E x) = clean E x.
Proof.
  intros Hx. split; [by apply clean_trigger_free | by apply clean_twice_trigger_free].
Qed.

Lemma clean_only_strips_plain_text_witness :
  clean py (u " متن نص \n") = strip py (u " متن نص \n") ∧
  clean py (clean py (u " متن نص \n")) = clean py (u " متن نص \n").
Proof.
  apply (clean_only_strips_plain_text py (u " متن نص \n")).
  unfold trigger_free. apply Forall_forall. intros c Hc.
  vm_compute in Hc. repeat (apply elem_of_cons in Hc as [-> | Hc]; [by vm_compute |]).
  by apply elem_of_nil in Hc.
Defined.

(** ** The base name of a path *)

Section BasenameFacts.
Variable E : Env.

Lemma scan_sep :
  ∀ s bos, scan E false rx_sep bos s 0
           = map (fun c => if is_sep c then Hit (Hit_ [c] []) else Gap c) s.
Proof.
  induction s as [|c s IH]; intros bos; [done |].
  cbn [scan map]. unfold at_pos, match_at, rx_sep. cbn [m]. unfold one.
  cbn [rest off caps]. unfold cls_match. cbn [existsb citem_match xorb].
  rewrite orb_false_r. fold (is_sep c). destruct (is_sep c).
  - cbn [andb off fst snd map app]. by rewrite IH.
  - cbn [fst snd map app]. by rewrite IH.
Qed.

Lemma pieces_gaps (b : str) : pieces (map Gap b) = [Some b].
Proof. induction b as [|c b IH]; [done |]. cbn [map pieces]. by rewrite IH. Qed.

Lemma pieces_after_hit ts1 h ts2 :
  ∃ seg more, pieces (ts1 ++ Hit h :: ts2) = Some seg :: more ++ pieces ts2.
Proof.
  induction ts1 as [|[c|h'] ts1 (seg & more & IH)]; cbn [app pieces].
  - by exists [], (groups h).
  - rewrite IH. by exists (c :: seg), more.
  - rewrite IH. exists [], (groups h' ++ Some seg :: more).
    by rewrite <- app_assoc.
Qed.

Lemma map_sep_free (b : str) :
  Forall (fun c => is_sep c = false) b →
  map (fun c => if is_sep c then Hit (Hit_ [c] []) else Gap c) b = map Gap b.
Proof.
  induction 1 as [|c b Hc _ IH]; [done |]. cbn [map]. by rewrite Hc, IH.
Qed.
End BasenameFacts.

(** X15: line 82 takes what follows the last [/] or backslash of [fp], and
    all of [fp] when it has neither. *)
Theorem basename_after_last_separator (E : Env) (b : str) :
  Forall (fun c => c ≠ ch "/" ∧ c ≠ ch "\\") b →
  basename E b = b ∧
  ∀ (dir : str) (c : char),
    c = ch "/" ∨ c = ch "\\" → basename E (dir ++ c :: b) = b.
Proof.
  intros Hb.
  assert (Hb' : Forall (fun c => is_sep c = false) b).
  { eapply Forall_impl; [exact Hb |]. intros c [H1 H2]. unfold is_sep.
    apply N.eqb_neq in H1, H2. by rewrite H1, H2. }
  split.
  - unfold basename, re_split. by rewrite scan_sep, (map_sep_free b Hb'), pieces_gaps.
  - intros dir c Hc. unfold basename, re_split. rewrite scan_sep, map_app.
    cbn [map]. assert (is_sep c = true) as -> by (by destruct Hc as [-> | ->]).
    destruct (pieces_after_hit
                (map (fun c => if is_sep c then Hit (Hit_ [c] []) else Gap c) dir)
                (Hit_ [c] [])
                (map (fun c => if is_sep c then Hit (Hit_ [c] []) else Gap c) b))
      as (seg & more & ->).
    rewrite (map_sep_free b Hb'), pieces_gaps.
    by rewrite app_comm_cons, last_snoc.
Qed.

Lemma basename_after_last_separator_witness :
  Forall (fun c => c ≠ ch "/" ∧ c ≠ ch "\\") (u "BK1") ∧
  basename py (u "BK1") = u "BK1" ∧
  basename py (u "data/out" ++ ch "/" :: u "BK1") = u "BK1".
Proof.
  assert (H : Forall (fun c => c ≠ ch "/" ∧ c ≠ ch "\\") (u "BK1"))
    by (repeat constructor; by vm_compute).
  destruct (basename_after_last_separator py (u "BK1") H) as [H1 H2].
  split; [exact H |]. split; [exact H1 |]. apply H2. by left.
Defined.
